(** * scripts/apply_conditional_testcases.py

    A shallow embedding of the bracket scanner [find_testcase_end] and of the
    attribute rewriter [process_file], with the properties of both.

    Modelling conventions.
    - A Python [str] is a sequence of Unicode code points: [codepoint] is
      [N] and [str] is [list codepoint].  ASCII literals are written
      [lit "..."].
    - Python [int] is unbounded: [bracket_depth] is a [Z] (it can go below
      zero), indices and counters that never go below zero are [nat].
    - Indexing [xs[k]] raises [IndexError] out of range: [getitem] returns in
      the [result] type, and so does everything that indexes.
    - The [while] loops are run with fuel; the fuel is chosen by the model
      ([S (length ...)]) and the theorems show that [OutOfFuel] never
      results.
    - [start_index] is a [nat]: [process_file], the only caller, passes the
      index of a line of the buffer.
    - A file is the text that [read_text] returns and [write_text] takes;
      what is printed is left out. *)

From Stdlib Require Import String Ascii.
From Stdlib Require Import List Bool Arith NArith ZArith Lia.
Import ListNotations.

Set Warnings "-notation-for-abbreviation".

(** ** Characters and strings *)

Definition codepoint := N.
Definition str := list codepoint.

Definition lit (s : string) : str := map N_of_ascii (list_ascii_of_string s).

Definition QUOTE : codepoint := 34%N.      (* the double quote *)
Definition AT : codepoint := 64%N.         (* @ *)
Definition BACKSLASH : codepoint := 92%N.
Definition LBRACKET : codepoint := 91%N.   (* [ *)
Definition RBRACKET : codepoint := 93%N.   (* ] *)
Definition COMMA : codepoint := 44%N.
Definition RPAREN : codepoint := 41%N.
Definition NEWLINE : codepoint := 10%N.

Definition char_eqb (a b : codepoint) : bool := N.eqb a b.

Fixpoint str_eqb (a b : str) : bool :=
  match a, b with
  | [], [] => true
  | x :: a', y :: b' => char_eqb x y && str_eqb a' b'
  | _, _ => false
  end.

(** ** Results of code that may raise *)

Inductive result (A : Type) : Type :=
| Ok (a : A)
| IndexError
| OutOfFuel.

Arguments Ok {A} a.
Arguments IndexError {A}.
Arguments OutOfFuel {A}.

Definition bind {A B} (r : result A) (k : A -> result B) : result B :=
  match r with
  | Ok a => k a
  | IndexError => IndexError
  | OutOfFuel => OutOfFuel
  end.

Declare Scope result_scope.
Delimit Scope result_scope with result.
Notation "x <- e ;; k" := (bind e (fun x => k))
  (at level 61, e at next level, right associativity) : result_scope.
Open Scope result_scope.

(** [a and b] on conditions that may raise: [b] is evaluated only when [a]
    is true. *)
Definition py_and (a b : result bool) : result bool :=
  x <- a ;; if x then b else Ok false.

Infix "&&&" := py_and (at level 40, left associativity) : result_scope.

(** [xs[k]] for [k >= 0]. *)
Definition getitem {A} (xs : list A) (k : nat) : result A :=
  match nth_error xs k with
  | Some x => Ok x
  | None => IndexError
  end.

(** [range(a, b)]. *)
Definition range (a b : nat) : list nat := seq a (b - a).

(** ** The bracket scanner, [find_testcase_end] *)

Module Scanner.

Record ScanState : Type := mkScan {
  bracket_depth : Z;
  in_string : bool;
  in_verbatim_string : bool;
  escape_next : bool
}.

(** Lines 29-32. *)
Definition init : ScanState :=
  {| bracket_depth := 0; in_string := false;
     in_verbatim_string := false; escape_next := false |}.

Definition set_depth (d : Z) (st : ScanState) : ScanState :=
  {| bracket_depth := d; in_string := in_string st;
     in_verbatim_string := in_verbatim_string st;
     escape_next := escape_next st |}.

Definition set_in_string (b : bool) (st : ScanState) : ScanState :=
  {| bracket_depth := bracket_depth st; in_string := b;
     in_verbatim_string := in_verbatim_string st;
     escape_next := escape_next st |}.

Definition set_in_verbatim_string (b : bool) (st : ScanState) : ScanState :=
  {| bracket_depth := bracket_depth st; in_string := in_string st;
     in_verbatim_string := b; escape_next := escape_next st |}.

Definition set_escape_next (b : bool) (st : ScanState) : ScanState :=
  {| bracket_depth := bracket_depth st; in_string := in_string st;
     in_verbatim_string := in_verbatim_string st; escape_next := b |}.

(** [in_string] and [in_verbatim_string] do not hold together. *)
Definition exclusive (st : ScanState) : Prop :=
  in_string st && in_verbatim_string st = false.

(** What one pass through the body of the [while] loop does: go on at
    column [j'] in state [st'], or [return i]. *)
Inductive ctl : Type :=
| Continue (j' : nat) (st' : ScanState)
| Return.

(** Lines 39-82, the body of [while j < len(line)]. *)
Definition scan_char (line : str) (j : nat) (st : ScanState) : result ctl :=
  char <- getitem line j ;;
  (* line 42 *)
  verbatim_open <-
    Ok (char_eqb char AT)
    &&& Ok (j + 1 <? length line)
    &&& (next <- getitem line (j + 1) ;; Ok (char_eqb next QUOTE))
    &&& Ok (negb (in_string st))
    &&& Ok (negb (in_verbatim_string st)) ;;
  if verbatim_open then
    Ok (Continue (j + 2) (set_in_verbatim_string true st))
  (* line 48 *)
  else if char_eqb char QUOTE && negb (in_verbatim_string st) then
    let st1 :=
      if negb (escape_next st) then set_in_string (negb (in_string st)) st
      else st in
    Ok (Continue (j + 1) (set_escape_next false st1))
  (* line 56 *)
  else if char_eqb char QUOTE && in_verbatim_string st then
    doubled <-
      Ok (j + 1 <? length line)
      &&& (next <- getitem line (j + 1) ;; Ok (char_eqb next QUOTE)) ;;
    if doubled then Ok (Continue (j + 2) st)
    else Ok (Continue (j + 1) (set_in_verbatim_string false st))
  (* line 67 *)
  else if char_eqb char BACKSLASH && in_string st
          && negb (in_verbatim_string st) then
    Ok (Continue (j + 1) (set_escape_next true st))
  (* line 73 *)
  else if negb (in_string st) && negb (in_verbatim_string st) then
    if char_eqb char LBRACKET then
      let st1 := set_depth (bracket_depth st + 1) st in
      Ok (Continue (j + 1) (set_escape_next false st1))
    else if char_eqb char RBRACKET then
      let st1 := set_depth (bracket_depth st - 1) st in
      if (bracket_depth st1 =? 0)%Z then Ok Return
      else Ok (Continue (j + 1) (set_escape_next false st1))
    else Ok (Continue (j + 1) (set_escape_next false st))
  else Ok (Continue (j + 1) (set_escape_next false st)).

(** Lines 37-82, [j = 0; while j < len(line): ...] from column [j] on.
    [Ok None] is the [return i] of line 79, [Ok (Some st)] the state in which
    the loop ends. *)
Fixpoint scan_line (fuel : nat) (line : str) (j : nat) (st : ScanState)
  : result (option ScanState) :=
  match fuel with
  | O => OutOfFuel
  | S fuel' =>
      if j <? length line then
        c <- scan_char line j st ;;
        match c with
        | Return => Ok None
        | Continue j' st' => scan_line fuel' line j' st'
        end
      else Ok (Some st)
  end.

(** Lines 34-82, [for i in ...: line = lines[i]; ...] over the indices [idxs].
    [Ok (Some i)] is the [return i] of line 79, [Ok None] the end of the
    loop. *)
Fixpoint scan_lines (idxs : list nat) (lines : list str) (st : ScanState)
  : result (option nat) :=
  match idxs with
  | [] => Ok None
  | i :: idxs' =>
      line <- getitem lines i ;;
      r <- scan_line (S (length line)) line 0 st ;;
      match r with
      | None => Ok (Some i)
      | Some st' => scan_lines idxs' lines st'
      end
  end.

(** Lines 23-85. *)
Definition find_testcase_end (lines : list str) (start_index : nat)
  : result nat :=
  r <- scan_lines (range start_index (length lines)) lines init ;;
  match r with
  | Some i => Ok i
  | None => Ok start_index      (* line 85 *)
  end.

(** The scan observed: the columns and states [(j, st)] at which the
    condition of the [while] loop of one line is evaluated, in order. *)
Fixpoint line_trace (fuel : nat) (line : str) (j : nat) (st : ScanState)
  : list (nat * ScanState) :=
  match fuel with
  | O => []
  | S fuel' =>
      (j, st) ::
      if j <? length line then
        match scan_char line j st with
        | Ok (Continue j' st') => line_trace fuel' line j' st'
        | _ => []
        end
      else []
  end.

(** The same over the lines [idxs]: triples [(i, j, st)]. *)
Fixpoint lines_trace (idxs : list nat) (lines : list str) (st : ScanState)
  : list (nat * nat * ScanState) :=
  match idxs with
  | [] => []
  | i :: idxs' =>
      match getitem lines i with
      | Ok line =>
          map (fun c => (i, fst c, snd c))
              (line_trace (S (length line)) line 0 st)
          ++ match scan_line (S (length line)) line 0 st with
             | Ok (Some st') => lines_trace idxs' lines st'
             | _ => []
             end
      | _ => []
      end
  end.

(** Every configuration a call [find_testcase_end(lines, start_index)] goes
    through. *)
Definition find_testcase_end_trace (lines : list str) (start_index : nat)
  : list (nat * nat * ScanState) :=
  lines_trace (range start_index (length lines)) lines init.

(** [escape_next] is set inside a regular string only. *)
Definition escape_in_string (st : ScanState) : Prop :=
  escape_next st = true ->
  in_string st = true /\ in_verbatim_string st = false.

(** A character that is neither a double quote nor a bracket. *)
Definition plain (c : codepoint) : bool :=
  negb (char_eqb c QUOTE) && negb (char_eqb c LBRACKET)
  && negb (char_eqb c RBRACKET).

End Scanner.

(** ** The attribute rewriter, [process_file] *)

Module Rewriter.

Import Scanner.

(** Lines 15-21. *)
Definition DB_TYPE_TO_SYMBOL : list (str * str) :=
  [ (lit "MicrosoftSQLServer", lit "MSSQL_TESTS");
    (lit "MySql", lit "MYSQL_TESTS");
    (lit "Oracle", lit "ORACLE_TESTS");
    (lit "PostgreSql", lit "POSTGRESQL_TESTS");
    (lit "Sqlite", lit "SQLITE_TESTS") ].

(** [d[k]] under the test [k in d]. *)
Fixpoint dict_get (k : str) (d : list (str * str)) : option str :=
  match d with
  | [] => None
  | (k', v) :: d' => if str_eqb k k' then Some v else dict_get k d'
  end.

(** [needle in hay] on strings. *)
Fixpoint startswith (prefix s : str) : bool :=
  match prefix, s with
  | [], _ => true
  | p :: prefix', c :: s' => char_eqb p c && startswith prefix' s'
  | _ :: _, [] => false
  end.

Fixpoint contains (needle hay : str) : bool :=
  startswith needle hay
  || match hay with
     | [] => false
     | _ :: hay' => contains needle hay'
     end.

(** [s.split('\n')]. *)
Fixpoint split (s : str) : list str :=
  match s with
  | [] => [[]]
  | c :: s' =>
      if char_eqb c NEWLINE then [] :: split s'
      else match split s' with
           | l :: ls => (c :: l) :: ls
           | [] => [[c]]
           end
  end.

(** ['\n'.join(ls)]. *)
Fixpoint join (ls : list str) : str :=
  match ls with
  | [] => []
  | [l] => l
  | l :: ls' => l ++ NEWLINE :: join ls'
  end.

Fixpoint take_while (p : codepoint -> bool) (s : str) : str :=
  match s with
  | c :: s' => if p c then c :: take_while p s' else []
  | [] => []
  end.

Fixpoint drop_while (p : codepoint -> bool) (s : str) : str :=
  match s with
  | c :: s' => if p c then drop_while p s' else s
  | [] => []
  end.

Fixpoint strip_prefix (prefix s : str) : option str :=
  match prefix, s with
  | [], _ => Some s
  | p :: prefix', c :: s' =>
      if char_eqb p c then strip_prefix prefix' s' else None
  | _ :: _, [] => None
  end.

(** A file as [process_file] sees it: whether [read_text] and [write_text]
    succeed, and the text. *)
Record file : Type := mkFile {
  readable : bool;
  writable : bool;
  text : str
}.

(** The lines of an output, each marked as a line of the input or as a
    guard line the rewriter has inserted. *)
Inductive mark : Type := Original | GuardOpen | GuardClose.

Definition mark_eqb (a b : mark) : bool :=
  match a, b with
  | Original, Original | GuardOpen, GuardOpen | GuardClose, GuardClose => true
  | _, _ => false
  end.

(** The output as written: the marks forgotten. *)
Definition erase (t : list (mark * str)) : list str := map snd t.

(** The output with the inserted guard lines deleted. *)
Definition originals (t : list (mark * str)) : list str :=
  map snd (filter (fun x => mark_eqb (fst x) Original) t).

Definition count_mark (m : mark) (t : list (mark * str)) : nat :=
  length (filter (fun x => mark_eqb (fst x) m) t).

Section Unicode.

(** The classes [\s] and [\w] of [re] on a [str] pattern follow the Unicode
    character database; below 128 they are fixed, above they are taken from
    the database, a parameter here. *)
Variable uni_space : codepoint -> bool.
Variable uni_word : codepoint -> bool.

Definition is_space (c : codepoint) : bool :=
  if (c <? 128)%N then
    ((9 <=? c) && (c <=? 13) || (28 <=? c) && (c <=? 32))%N
  else uni_space c.

Definition is_word (c : codepoint) : bool :=
  if (c <? 128)%N then
    ((48 <=? c) && (c <=? 57) || (65 <=? c) && (c <=? 90)
     || (97 <=? c) && (c <=? 122) || (c =? 95))%N
  else uni_word c.

(** Line 115, [re.match] of the line against the pattern made of: the start
    of the string; group 1, a greedy run of [\s], possibly empty; the text
    [TestCase(DatabaseType.] after an opening bracket; group 2, a greedy
    run of [\w], not empty; a comma or a closing parenthesis.  The result
    is the groups [(indent, db_type)] of the match, if any.  The character
    after group 1 must be an opening bracket and the one after group 2 a
    comma or closing parenthesis, none of which is in the class before it,
    so both greedy runs take all they can and backtracking finds nothing
    else (see [match_testcase_spec]). *)
Definition match_testcase (line : str) : option (str * str) :=
  let indent := take_while is_space line in
  match strip_prefix (lit "[TestCase(DatabaseType.")
                     (drop_while is_space line) with
  | None => None
  | Some rest =>
      let db_type := take_while is_word rest in
      match db_type, drop_while is_word rest with
      | _ :: _, c :: _ =>
          if char_eqb c COMMA || char_eqb c RPAREN
          then Some (indent, db_type) else None
      | _, _ => None
      end
  end.

(** [[lines[j] for j in idxs]], the loop of lines 131-132. *)
Fixpoint getitems (lines : list str) (idxs : list nat) : result (list str) :=
  match idxs with
  | [] => Ok []
  | j :: idxs' =>
      l <- getitem lines j ;;
      ls <- getitems lines idxs' ;;
      Ok (l :: ls)
  end.

(** Lines 111-142, the body of [while i < len(lines)]: the new values of
    [(i, new_lines, count)]. *)
Definition process_step (lines : list str) (i : nat) (new_lines : list str)
    (count : nat) : result (nat * list str * nat) :=
  line <- getitem lines i ;;
  match match_testcase line with
  | Some (indent, db_type) =>
      match dict_get db_type DB_TYPE_TO_SYMBOL with
      | Some symbol =>
          end_line_index <- find_testcase_end lines i ;;
          attribute <- getitems lines (range i (end_line_index + 1)) ;;
          Ok (end_line_index + 1,
              new_lines ++ [indent ++ lit "#if " ++ symbol]
                        ++ attribute
                        ++ [indent ++ lit "#endif"],
              count + 1)
      | None => Ok (i + 1, new_lines ++ [line], count)
      end
  | None => Ok (i + 1, new_lines ++ [line], count)
  end.

(** Lines 110-142. *)
Fixpoint process_loop (fuel : nat) (lines : list str) (i : nat)
    (new_lines : list str) (count : nat) : result (list str * nat) :=
  match fuel with
  | O => OutOfFuel
  | S fuel' =>
      if i <? length lines then
        r <- process_step lines i new_lines count ;;
        let '(i', new_lines', count') := r in
        process_loop fuel' lines i' new_lines' count'
      else Ok (new_lines, count)
  end.

(** Lines 105-142 on the lines of the file: [(new_lines, count)]. *)
Definition process_lines (lines : list str) : result (list str * nat) :=
  process_loop (S (length lines)) lines 0 [] 0.

(** Lines 87-154: the pair [(count, modified)] returned and the file
    afterwards.  The messages printed are left out. *)
Definition process_file (f : file) : result (nat * bool * file) :=
  if negb (readable f) then Ok (0, false, f)                 (* line 97 *)
  else
    let content := text f in
    if contains (lit "#if MSSQL_TESTS") content
       || contains (lit "#if MYSQL_TESTS") content
    then Ok (0, false, f)                                    (* line 102 *)
    else
      r <- process_lines (split content) ;;
      let '(new_lines, count) := r in
      let new_content := join new_lines in
      let modified := negb (str_eqb new_content content) in
      if modified then
        if writable f then
          Ok (count, modified,
              {| readable := readable f; writable := writable f;
                 text := new_content |})
        else Ok (count, false, f)                            (* line 152 *)
      else Ok (count, modified, f).

(** The scanner goes through the buffer from line [i] on without reaching
    the [return] of line 79, and falls back to line 85. *)
Definition exhausts (lines : list str) (i : nat) : Prop :=
  scan_lines (range i (length lines)) lines init = Ok None.

(** A marked output made of [n] wrapped attributes and of lines copied one
    by one: each wrapped attribute is a guard-opening line, the lines of the
    attribute, of which the first is a header with a known database type,
    and a guard-closing line, both guards with the indentation of the
    header. *)
Inductive wrapped : list (mark * str) -> nat -> Prop :=
| wrapped_nil : wrapped [] 0
| wrapped_copy (line : str) (t : list (mark * str)) (n : nat) :
    wrapped t n -> wrapped ((Original, line) :: t) n
| wrapped_span (indent db_type symbol first : str) (others : list str)
    (t : list (mark * str)) (n : nat) :
    match_testcase first = Some (indent, db_type) ->
    dict_get db_type DB_TYPE_TO_SYMBOL = Some symbol ->
    wrapped t n ->
    wrapped ((GuardOpen, indent ++ lit "#if " ++ symbol)
             :: (Original, first)
             :: map (pair Original) others
             ++ (GuardClose, indent ++ lit "#endif") :: t)
            (S n).

End Unicode.

End Rewriter.


(** ** The driver, [main] *)

Module Driver.

Import Rewriter.

(** One of the directories of [test_paths] as [main] sees it: whether it
    exists, and the files that [rglob] yields for the pattern of C# sources,
    each with the text of its path, [str(cs_file)]. *)
Record test_dir : Type := mkDir {
  dir_exists : bool;
  cs_files : list (str * file)
}.

(** The three counters of lines 164-166. *)
Record summary : Type := mkSummary {
  total_count : nat;
  files_modified : nat;
  files_processed : nat
}.

(** Line 175, the test for a path below a directory named [obj], with
    either separator. *)
Definition in_obj (path : str) : bool :=
  contains (lit "/obj/") path
  || contains (BACKSLASH :: lit "obj" ++ [BACKSLASH]) path.

Section Unicode.

Variable uni_space : codepoint -> bool.
Variable uni_word : codepoint -> bool.

(** Lines 173-187, the loop over the files of one directory: the files
    afterwards and the counters. *)
Fixpoint main_files (files : list (str * file)) (s : summary)
  : result (list (str * file) * summary) :=
  match files with
  | [] => Ok ([], s)
  | (path, f) :: files' =>
      if in_obj path then                                   (* line 176 *)
        r <- main_files files' s ;;
        let '(done, s') := r in
        Ok ((path, f) :: done, s')
      else
        r <- process_file uni_space uni_word f ;;
        let '(count, modified, f') := r in
        let s1 :=
          if 0 <? count then
            {| total_count := total_count s + count;
               files_modified :=
                 if modified then files_modified s + 1
                 else files_modified s;
               files_processed := files_processed s + 1 |}
          else s in
        r' <- main_files files' s1 ;;
        let '(done, s') := r' in
        Ok ((path, f') :: done, s')
  end.

(** Lines 168-187, the loop over [test_paths]. *)
Fixpoint main_dirs (dirs : list test_dir) (s : summary)
  : result (list test_dir * summary) :=
  match dirs with
  | [] => Ok ([], s)
  | d :: dirs' =>
      if negb (dir_exists d) then                           (* line 171 *)
        r <- main_dirs dirs' s ;;
        let '(done, s') := r in
        Ok (d :: done, s')
      else
        r <- main_files (cs_files d) s ;;
        let '(files', s1) := r in
        r' <- main_dirs dirs' s1 ;;
        let '(done, s') := r' in
        Ok ({| dir_exists := dir_exists d; cs_files := files' |} :: done, s')
  end.

(** Lines 156-192: the directories afterwards and the counters of the
    summary that is printed. *)
Definition main (test_paths : list test_dir)
  : result (list test_dir * summary) :=
  main_dirs test_paths
            {| total_count := 0; files_modified := 0; files_processed := 0 |}.

(** [f'] is [f] with guard lines inserted: the same permissions, and lines
    that are the lines of [f] once the inserted guard lines are deleted. *)
Definition guarded_version (f f' : file) : Prop :=
  readable f' = readable f /\ writable f' = writable f /\
  exists (t : list (mark * str)) (n : nat),
    split (text f') = erase t /\
    originals t = split (text f) /\
    wrapped uni_space uni_word t n.

(** A file of a directory before and after [main]: the same path; the same
    file when the path is below an [obj] directory; in any case the file
    with guard lines inserted, if any. *)
Definition file_after (before after : str * file) : Prop :=
  fst after = fst before /\
  (in_obj (fst before) = true -> snd after = snd before) /\
  guarded_version (snd before) (snd after).

Definition dir_after (before after : test_dir) : Prop :=
  dir_exists after = dir_exists before /\
  (dir_exists before = false -> after = before) /\
  Forall2 file_after (cs_files before) (cs_files after).

End Unicode.

(** The number of files that [main] hands to [process_file]: those of the
    directories that exist, outside [obj] directories. *)
Definition candidates (test_paths : list test_dir) : nat :=
  list_sum
    (map (fun d =>
            if dir_exists d then
              length (filter (fun pf => negb (in_obj (fst pf))) (cs_files d))
            else 0)
         test_paths).

(** The counters [s'] come from [s] by handing at most [k] files to
    [process_file]: no more files modified than processed, and at least
    one attribute wrapped for each file processed. *)
Definition grown (s s' : summary) (k : nat) : Prop :=
  exists dm dp dc,
    files_modified s' = files_modified s + dm /\
    files_processed s' = files_processed s + dp /\
    total_count s' = total_count s + dc /\
    dm <= dp /\ dp <= dc /\ dp <= k.

End Driver.

(** ** Inputs used in the examples *)

Module Examples.

(** [s] between double quotes. *)
Definition quoted (s : str) : str := QUOTE :: s ++ [QUOTE].

(** The C# literal of the one-character string that holds a backslash: a
    quote, two backslashes, a quote. *)
Definition backslash_literal : str := quoted [BACKSLASH; BACKSLASH].

(** A C# verbatim literal with a doubled quote inside: an at sign, a quote,
    [a], two quotes, [b], a quote. *)
Definition verbatim_literal : str :=
  AT :: quoted (lit "a" ++ [QUOTE; QUOTE] ++ lit "b").

(** The attribute [TestCase(DatabaseType.MySql, s)] in brackets, with
    [backslash_literal] for [s]: an attribute complete on its line. *)
Definition backslash_attribute : str :=
  lit "[TestCase(DatabaseType.MySql, " ++ backslash_literal ++ lit ")]".

(** The statement that assigns to [x] the string literal of a closing
    bracket. *)
Definition bracket_assignment : str :=
  lit "x = " ++ quoted (lit "]") ++ lit ";".

(** A character database in which no code point from 128 on is a space or
    a word character.  The inputs below are ASCII text, for which the
    database is not consulted. *)
Definition ascii_only : codepoint -> bool := fun _ => false.

(** An attribute of a known database type whose bracket is never closed. *)
Definition unclosed_attribute : str := lit "[TestCase(DatabaseType.MySql, 1)".

Definition unknown_attribute : str := lit "[TestCase(DatabaseType.Unknown, 1)]".

(** Two spaces, then the attribute [TestCase(DatabaseType.MySql, s)] in
    brackets with the string literal of [x] for [s]. *)
Definition mysql_attribute : str :=
  lit "  [TestCase(DatabaseType.MySql, " ++ quoted (lit "x") ++ lit ")]".

Definition oracle_attribute : str := lit "[TestCase(DatabaseType.Oracle, 1)]".

Definition text_file (content : str) : Rewriter.file :=
  {| Rewriter.readable := true; Rewriter.writable := true;
     Rewriter.text := content |}.

(** A file that holds one Oracle attribute, that file after one run, and
    after two. *)
Definition oracle_file : Rewriter.file := text_file oracle_attribute.

Definition oracle_file_wrapped : Rewriter.file :=
  text_file (Rewriter.join [lit "#if ORACLE_TESTS"; oracle_attribute;
                            lit "#endif"]).

(** An attribute over two lines, followed by a third line. *)
Definition two_line_attribute : list str :=
  [lit "[TestCase(DatabaseType.MySql,"; lit "  1)]"; lit "x"].

(** A file that holds one MySql attribute and a line of code. *)
Definition mysql_file : Rewriter.file :=
  text_file (Rewriter.join [lit "  [TestCase(DatabaseType.MySql, 1)]";
                            lit "  public void T(int x) {}"]).

(** That file after one run. *)
Definition mysql_file_wrapped : Rewriter.file :=
  text_file (Rewriter.join [lit "  #if MYSQL_TESTS";
                            lit "  [TestCase(DatabaseType.MySql, 1)]";
                            lit "  #endif";
                            lit "  public void T(int x) {}"]).

Definition read_only (f : Rewriter.file) : Rewriter.file :=
  {| Rewriter.readable := Rewriter.readable f; Rewriter.writable := false;
     Rewriter.text := Rewriter.text f |}.

Definition oracle_file_wrapped_twice : Rewriter.file :=
  text_file (Rewriter.join [lit "#if ORACLE_TESTS"; lit "#if ORACLE_TESTS";
                            oracle_attribute;
                            lit "#endif"; lit "#endif"]).

End Examples.

(** * Properties *)

(** ** Generic facts *)

Lemma getitem_lt {A} (xs : list A) (k : nat) :
  k < length xs -> exists x, getitem xs k = Ok x /\ nth_error xs k = Some x.
Proof.
  intros H. unfold getitem.
  destruct (nth_error xs k) as [x|] eqn:E.
  - exists x. split; reflexivity.
  - apply nth_error_None in E. lia.
Qed.

Lemma getitem_Ok {A} (xs : list A) (k : nat) (x : A) :
  getitem xs k = Ok x -> nth_error xs k = Some x /\ k < length xs.
Proof.
  unfold getitem. destruct (nth_error xs k) as [y|] eqn:E; [|discriminate].
  intros H. injection H as ->. split; [reflexivity|].
  apply nth_error_Some. congruence.
Qed.

Lemma last_cons {A} (l : list A) :
  forall x d : A, last (x :: l) d = last l x.
Proof.
  induction l as [|y l IH]; intros x d; [reflexivity|].
  change (last (x :: y :: l) d) with (last (y :: l) d).
  rewrite (IH y d), (IH y x). reflexivity.
Qed.

Lemma last_app_cons {A} (a b : list A) (x d : A) :
  last (a ++ x :: b) d = last (x :: b) d.
Proof.
  induction a as [|y a IH]; [reflexivity|].
  rewrite <- IH. simpl. destruct (a ++ x :: b) eqn:E; [|reflexivity].
  destruct a; discriminate.
Qed.

Lemma last_map {A B} (f : A -> B) (l : list A) (d : A) :
  last (map f l) (f d) = f (last l d).
Proof.
  induction l as [|x l IH]; [reflexivity|].
  simpl. destruct l; [reflexivity|]. exact IH.
Qed.

Lemma last_map_cons {A B} (f : A -> B) (x : A) (l : list A) (d : A)
    (d' : B) :
  last (map f (x :: l)) d' = f (last (x :: l) d).
Proof.
  cbn [map]. rewrite !last_cons. apply last_map.
Qed.

Lemma char_eqb_eq (a b : codepoint) : char_eqb a b = true <-> a = b.
Proof. apply N.eqb_eq. Qed.

Lemma str_eqb_eq (a b : str) : str_eqb a b = true <-> a = b.
Proof.
  revert b. induction a as [|x a IH]; intros [|y b]; simpl;
    try (split; [discriminate | congruence]); [tauto|].
  rewrite andb_true_iff, char_eqb_eq, IH.
  split; [intros [-> ->]; reflexivity | intros H; injection H; auto].
Qed.

Lemma str_eqb_refl (a : str) : str_eqb a a = true.
Proof. apply str_eqb_eq. reflexivity. Qed.

(** ** The scanner *)

Module ScannerFacts.

Import Scanner.

(** Case analysis on the tests of [scan_char]. *)
Ltac split_tests :=
  repeat match goal with
         | |- context [if ?b then _ else _] =>
             let E := fresh "T" in destruct b eqn:E; simpl in *
         end.

Ltac open_scan_char line j :=
  let c := fresh "char" in
  let Hc := fresh "Hchar" in
  let Hn := fresh "Hnth" in
  unfold scan_char;
  match goal with
  | H : j < length line |- _ =>
      destruct (getitem_lt line j H) as (c & Hc & Hn); rewrite Hc
  end;
  unfold py_and; simpl.

(** The character after column [j], under the test [j + 1 < len(line)]. *)
Lemma lookahead_ok (line : str) (j : nat) :
  (j + 1 <? length line) = true ->
  exists next, getitem line (j + 1) = Ok next.
Proof.
  intros H. apply Nat.ltb_lt in H.
  destruct (getitem_lt line (j + 1) H) as (x & Hx & _). exists x. exact Hx.
Qed.

(** One pass through the loop body raises nothing and moves forward, by one
    or two columns, staying within the line. *)
Lemma scan_char_ok (line : str) (j : nat) (st : ScanState) :
  j < length line ->
  exists c, scan_char line j st = Ok c /\
            match c with
            | Continue j' _ => j < j' <= length line
            | Return => True
            end.
Proof.
  intros Hj. open_scan_char line j.
  destruct (j + 1 <? length line) eqn:L.
  - destruct (lookahead_ok line j L) as (next & Hnext). rewrite Hnext.
    apply Nat.ltb_lt in L. simpl.
    split_tests; eexists; (split; [reflexivity | simpl; try lia]).
  - simpl. split_tests; eexists; (split; [reflexivity | simpl; try lia]).
Qed.

(** The loop body keeps the two string flags exclusive. *)
Lemma scan_char_exclusive (line : str) (j : nat) (st : ScanState)
    (j' : nat) (st' : ScanState) :
  scan_char line j st = Ok (Continue j' st') ->
  exclusive st -> exclusive st'.
Proof.
  unfold scan_char, exclusive, py_and.
  destruct (getitem line j) as [char| |]; simpl; try discriminate.
  destruct (getitem line (j + 1)) as [next| |];
    destruct st as [d s v e]; simpl;
    destruct s, v, e; simpl; split_tests;
    intros H; try discriminate H; injection H as <- <-; simpl; intros H;
    try reflexivity; try discriminate H;
    rewrite ?andb_false_r, ?andb_true_r in *; congruence.
Qed.

(** The [while] loop of one line ends with the fuel the model gives it. *)
Lemma scan_line_ok (fuel : nat) (line : str) :
  forall (j : nat) (st : ScanState),
    length line - j < fuel ->
    exists r, scan_line fuel line j st = Ok r.
Proof.
  induction fuel as [|fuel IH]; intros j st Hf; [lia|].
  simpl. destruct (j <? length line) eqn:L.
  - apply Nat.ltb_lt in L.
    destruct (scan_char_ok line j st L) as (c & Hc & Hb). rewrite Hc. simpl.
    destruct c as [j' st'|].
    + apply IH. lia.
    + exists None. reflexivity.
  - exists (Some st). reflexivity.
Qed.

(** The state in which the loop of one line ends is exclusive when the one
    it starts in is. *)
Lemma scan_line_exclusive (fuel : nat) (line : str) :
  forall (j : nat) (st st' : ScanState),
    scan_line fuel line j st = Ok (Some st') ->
    exclusive st -> exclusive st'.
Proof.
  induction fuel as [|fuel IH]; intros j st st'; simpl; [discriminate|].
  destruct (j <? length line).
  - destruct (scan_char line j st) as [[j1 st1|]| |] eqn:Hc; simpl;
      try discriminate.
    intros H Hex. apply (IH _ _ _ H).
    exact (scan_char_exclusive _ _ _ _ _ Hc Hex).
  - intros H Hex. injection H as <-. exact Hex.
Qed.

Lemma line_trace_exclusive (fuel : nat) (line : str) :
  forall (j : nat) (st : ScanState),
    exclusive st ->
    Forall (fun c => exclusive (snd c)) (line_trace fuel line j st).
Proof.
  induction fuel as [|fuel IH]; intros j st Hex; simpl; [constructor|].
  constructor; [exact Hex|].
  destruct (j <? length line); [|constructor].
  destruct (scan_char line j st) as [[j1 st1|]| |] eqn:Hc; try constructor.
  apply IH. exact (scan_char_exclusive _ _ _ _ _ Hc Hex).
Qed.

Lemma lines_trace_exclusive (lines : list str) (idxs : list nat) :
  forall st : ScanState,
    exclusive st ->
    Forall (fun c => exclusive (snd c)) (lines_trace idxs lines st).
Proof.
  induction idxs as [|i idxs IH]; intros st Hex; cbn [lines_trace];
    [constructor|].
  destruct (getitem lines i) as [line| |]; [|constructor|constructor].
  apply Forall_app. split.
  - apply Forall_map. cbn [snd].
    exact (line_trace_exclusive _ _ _ _ Hex).
  - destruct (scan_line (S (length line)) line 0 st) as [[st'|]| |] eqn:Hl;
      try constructor.
    apply IH. exact (scan_line_exclusive _ _ _ _ _ Hl Hex).
Qed.

(** *** The trace is the run *)

(** Successive entries of the trace of a line are linked by the loop
    body. *)
Lemma line_trace_steps (fuel : nat) (line : str) :
  forall (j : nat) (st : ScanState) (k : nat) (c1 c2 : nat * ScanState),
    nth_error (line_trace fuel line j st) k = Some c1 ->
    nth_error (line_trace fuel line j st) (S k) = Some c2 ->
    fst c1 < length line /\
    scan_char line (fst c1) (snd c1) = Ok (Continue (fst c2) (snd c2)).
Proof.
  induction fuel as [|fuel IH]; intros j st k c1 c2; simpl.
  - destruct k; discriminate.
  - destruct (j <? length line) eqn:L.
    2:{ destruct k as [|[|k]]; discriminate. }
    destruct (scan_char line j st) as [[j1 st1|]| |] eqn:Hc;
      try (destruct k as [|[|k]]; discriminate).
    destruct k as [|k].
    + simpl. intros H1 H2. injection H1 as <-. simpl.
      destruct fuel; simpl in H2; [discriminate|].
      injection H2 as <-. simpl. apply Nat.ltb_lt in L. auto.
    + simpl. apply IH.
Qed.

(** The last entry of the trace of a line is where [scan_line] ends: past
    the end of the line, in the state it returns, or at the closing bracket
    on which line 79 returns. *)
Lemma line_trace_last (fuel : nat) (line : str) :
  forall (j : nat) (st : ScanState),
    length line - j < fuel ->
    exists (j' : nat) (st' : ScanState),
      last (line_trace fuel line j st) (j, st) = (j', st') /\
      ((length line <= j' /\ scan_line fuel line j st = Ok (Some st')) \/
       (j' < length line /\ scan_char line j' st' = Ok Return /\
        scan_line fuel line j st = Ok None)).
Proof.
  induction fuel as [|fuel IH]; intros j st Hf; [lia|].
  cbn [line_trace scan_line].
  destruct (j <? length line) eqn:L.
  - apply Nat.ltb_lt in L.
    destruct (scan_char_ok line j st L) as (c & Hc & Hb). rewrite Hc.
    destruct c as [j1 st1|].
    + destruct (IH j1 st1 ltac:(lia)) as (j' & st' & Hl & Hr).
      exists j', st'. split; [|exact Hr].
      rewrite last_cons. destruct fuel; [lia|].
      cbn [line_trace] in *. rewrite last_cons in *. exact Hl.
    + exists j, st. split; [reflexivity|]. right. auto.
  - apply Nat.ltb_ge in L. exists j, st. split; [reflexivity|]. left. auto.
Qed.

(** *** The scan of the buffer *)

Lemma scan_lines_ok (lines : list str) (idxs : list nat) :
  forall st : ScanState,
    Forall (fun i => i < length lines) idxs ->
    exists r, scan_lines idxs lines st = Ok r /\
              match r with Some i => In i idxs | None => True end.
Proof.
  induction idxs as [|i idxs IH]; intros st Hall; cbn [scan_lines].
  - exists None. auto.
  - inversion Hall as [|? ? Hi Hrest]; subst.
    destruct (getitem_lt lines i Hi) as (line & Hline & _). rewrite Hline.
    cbn [bind].
    destruct (scan_line_ok (S (length line)) line 0 st ltac:(lia))
      as (r & Hr).
    rewrite Hr. cbn [bind]. destruct r as [st'|].
    + destruct (IH st' Hrest) as (r & Hs & Hin). exists r.
      split; [exact Hs|]. destruct r; simpl; auto.
    + exists (Some i). simpl. auto.
Qed.

Lemma range_bounds (a b i : nat) : In i (range a b) -> a <= i < b.
Proof. unfold range. rewrite in_seq. lia. Qed.

Lemma find_testcase_end_trace_head (lines : list str) (start_index : nat) :
  start_index < length lines ->
  hd_error (find_testcase_end_trace lines start_index)
  = Some (start_index, 0, init).
Proof.
  intros H. unfold find_testcase_end_trace, range.
  replace (length lines - start_index)
    with (S (length lines - S start_index)) by lia.
  cbn [seq lines_trace].
  destruct (getitem_lt lines start_index H) as (line & Hl & _). rewrite Hl.
  reflexivity.
Qed.

Lemma find_testcase_end_ok (lines : list str) (start_index : nat) :
  start_index < length lines ->
  exists i, find_testcase_end lines start_index = Ok i /\
            start_index <= i < length lines.
Proof.
  intros H. unfold find_testcase_end.
  destruct (scan_lines_ok lines (range start_index (length lines)) init)
    as (r & Hr & Hin).
  - apply Forall_forall. intros i Hi. apply range_bounds in Hi. lia.
  - rewrite Hr. cbn [bind]. destruct r as [i|].
    + exists i. split; [reflexivity|]. apply range_bounds. exact Hin.
    + exists start_index. split; [reflexivity | lia].
Qed.

Lemma scan_lines_cons (lines : list str) (i : nat) (idxs : list nat)
    (st : ScanState) :
  scan_lines (i :: idxs) lines st
  = (line <- getitem lines i ;;
     r <- scan_line (S (length line)) line 0 st ;;
     match r with
     | None => Ok (Some i)
     | Some st' => scan_lines idxs lines st'
     end).
Proof. reflexivity. Qed.

Lemma lines_trace_cons (lines : list str) (i : nat) (idxs : list nat)
    (st : ScanState) :
  lines_trace (i :: idxs) lines st
  = match getitem lines i with
    | Ok line =>
        map (fun c => (i, fst c, snd c))
            (line_trace (S (length line)) line 0 st)
        ++ match scan_line (S (length line)) line 0 st with
           | Ok (Some st') => lines_trace idxs lines st'
           | _ => []
           end
    | _ => []
    end.
Proof. reflexivity. Qed.

Lemma lines_trace_nonempty (lines : list str) (i : nat) (idxs : list nat)
    (st : ScanState) :
  i < length lines ->
  exists x t, lines_trace (i :: idxs) lines st = x :: t.
Proof.
  intros Hi. rewrite lines_trace_cons.
  destruct (getitem_lt lines i Hi) as (line & Hl & _). rewrite Hl.
  cbn [line_trace map app]. eexists. eexists. reflexivity.
Qed.

(** The last entry of the trace of a scan is where [find_testcase_end]
    leaves its loops: on line [i] at the closing bracket on which line 79
    returns [i], or past the end of the last line of the buffer when the
    loops run out and line 85 returns [start_index]. *)
Lemma lines_trace_last (lines : list str) (idxs : list nat) :
  forall (st : ScanState) (i0 : nat) (d : nat * nat * ScanState),
    Forall (fun i => i < length lines) (i0 :: idxs) ->
    exists (i j' : nat) (st' : ScanState) (line : str),
      last (lines_trace (i0 :: idxs) lines st) d = (i, j', st') /\
      nth_error lines i = Some line /\
      ((scan_lines (i0 :: idxs) lines st = Ok (Some i) /\
        j' < length line /\ scan_char line j' st' = Ok Return) \/
       (scan_lines (i0 :: idxs) lines st = Ok None /\
        length line <= j' /\ i = last idxs i0)).
Proof.
  induction idxs as [|i1 idxs IH]; intros st i0 d Hall;
    inversion Hall as [|? ? Hi0 Hrest]; subst;
    rewrite lines_trace_cons, scan_lines_cons;
    destruct (getitem_lt lines i0 Hi0) as (line & Hl & Hn); rewrite Hl;
    cbn [bind];
    destruct (line_trace_last (S (length line)) line 0 st ltac:(lia))
      as (j' & st' & Hlast & Hend);
    assert (Hmap : forall d',
               last (map (fun c : nat * ScanState => (i0, fst c, snd c))
                         (line_trace (S (length line)) line 0 st)) d'
               = (i0, j', st'))
      by (intros d'; cbn [line_trace] in *;
          rewrite (last_map_cons _ _ _ (0, st)), Hlast; reflexivity).
  - exists i0, j', st', line.
    destruct Hend as [(Hge & Hs) | (Hlt & Hc & Hs)]; rewrite Hs;
      cbn [bind lines_trace scan_lines];
      rewrite app_nil_r; (split; [apply Hmap|]); (split; [exact Hn|]);
      [right | left]; auto.
  - destruct Hend as [(Hge & Hs) | (Hlt & Hc & Hs)]; rewrite Hs;
      cbn [bind].
    + destruct (IH st' i1 d Hrest) as (i & j2 & st2 & line2 & H1 & H2 & H3).
      exists i, j2, st2, line2. split; [|split; [exact H2|]].
      * inversion Hrest as [|? ? Hi1 _]; subst.
        destruct (lines_trace_nonempty lines i1 idxs st' Hi1)
          as (x & t & E).
        rewrite E in *. rewrite last_app_cons. exact H1.
      * rewrite last_cons. exact H3.
    + exists i0, j', st', line. rewrite app_nil_r.
      split; [apply Hmap|]. split; [exact Hn|]. left. auto.
Qed.


(** *** The claims on the scanner *)

(** C10: for every buffer [lines] and every [start_index] with
    [0 <= start_index < len(lines)], [find_testcase_end] ends, raises
    nothing (no index out of range, and the fuel of the model suffices) and
    returns an index [i] with [start_index <= i < len(lines)], whatever the
    start line holds. *)
Theorem find_testcase_end_in_range (lines : list str) (start_index : nat) :
  start_index < length lines ->
  exists i, find_testcase_end lines start_index = Ok i /\
            start_index <= i < length lines.
Proof. exact (find_testcase_end_ok lines start_index). Qed.

Lemma find_testcase_end_in_range_witness :
  exists i, find_testcase_end [lit "x = 1;"; lit "y = 2;"] 1 = Ok i /\
            1 <= i < length [lit "x = 1;"; lit "y = 2;"].
Proof. apply find_testcase_end_in_range. simpl. lia. Defined.

(** C9: in every configuration a scan goes through, for every buffer and
    every start index, [in_string] and [in_verbatim_string] are not both
    true. *)
Theorem flags_never_both (lines : list str) (start_index : nat) :
  Forall (fun c => exclusive (snd c))
         (find_testcase_end_trace lines start_index).
Proof.
  apply lines_trace_exclusive. reflexivity.
Qed.

(** C5: at a bracket character met while [in_string] or
    [in_verbatim_string] holds, the loop body leaves [bracket_depth] and the
    string flags as they are and goes on to the next column (it does not
    return); and the loop body changes [bracket_depth] or returns only at a
    bracket character met while neither flag holds. *)
Theorem brackets_counted_only_outside_strings
    (line : str) (j : nat) (st : ScanState) (char : codepoint) :
  getitem line j = Ok char ->
  (char = LBRACKET \/ char = RBRACKET ->
   in_string st || in_verbatim_string st = true ->
   exists st', scan_char line j st = Ok (Continue (j + 1) st') /\
               bracket_depth st' = bracket_depth st /\
               in_string st' = in_string st /\
               in_verbatim_string st' = in_verbatim_string st)
  /\
  (forall c, scan_char line j st = Ok c ->
     match c with
     | Return => True
     | Continue _ st' => bracket_depth st' <> bracket_depth st
     end ->
     (char = LBRACKET \/ char = RBRACKET) /\
     in_string st = false /\ in_verbatim_string st = false).
Proof.
  intros Hchar. split.
  - intros Hb Hflag. exists (set_escape_next false st).
    split; [|auto]. unfold scan_char, py_and. rewrite Hchar.
    destruct st as [d s v e]. simpl in Hflag.
    destruct Hb as [-> | ->]; destruct s, v; try discriminate Hflag;
      reflexivity.
  - intros c. unfold scan_char, py_and. rewrite Hchar. cbn [bind].
    destruct (getitem line (j + 1)) as [next| |];
      destruct st as [d s v e]; simpl;
      destruct s, v; simpl; split_tests;
      intros H; try discriminate H; injection H as <-; simpl; intros Hd;
      try (exfalso; apply Hd; reflexivity);
      rewrite ?char_eqb_eq in *; auto.
Qed.

Lemma brackets_counted_only_outside_strings_witness :
  (exists st',
      scan_char (Examples.quoted (lit "]")) 1
                (set_in_string true init) = Ok (Continue (1 + 1) st') /\
      bracket_depth st' = bracket_depth (set_in_string true init) /\
      in_string st' = in_string (set_in_string true init) /\
      in_verbatim_string st'
      = in_verbatim_string (set_in_string true init)).
Proof.
  refine (proj1 (brackets_counted_only_outside_strings
                   (Examples.quoted (lit "]")) 1
                   (set_in_string true init) RBRACKET _) _ _).
  - reflexivity.
  - right. reflexivity.
  - reflexivity.
Defined.

(** C6: inside a verbatim string, a double quote followed on the line by
    another one is passed together with it (two columns) and the state is
    unchanged, so the scanner stays inside the verbatim string; a double
    quote not followed by another one ends the verbatim string; and nothing
    else ends it.  On the verbatim literal with a doubled quote inside
    ([Examples.verbatim_literal]) the scanner is inside the verbatim string
    from column 2 to column 6 and leaves it at the last quote only. *)
Theorem doubled_quote_stays_verbatim
    (line : str) (j : nat) (st : ScanState) :
  in_verbatim_string st = true ->
  (getitem line j = Ok QUOTE ->
   (getitem line (j + 1) = Ok QUOTE ->
    scan_char line j st = Ok (Continue (j + 2) st)) /\
   (getitem line (j + 1) <> Ok QUOTE ->
    scan_char line j st
    = Ok (Continue (j + 1) (set_in_verbatim_string false st))))
  /\
  (forall j' st',
      scan_char line j st = Ok (Continue j' st') ->
      in_verbatim_string st' = false ->
      getitem line j = Ok QUOTE /\ getitem line (j + 1) <> Ok QUOTE /\
      j' = j + 1)
  /\
  map (fun c => (fst c, in_verbatim_string (snd c)))
      (line_trace (S (length Examples.verbatim_literal))
                  Examples.verbatim_literal 0 init)
  = [(0, false); (2, true); (3, true); (5, true); (6, true); (7, false)].
Proof.
  intros Hv. split; [|split; [|reflexivity]].
  - intros Hq. unfold scan_char, py_and. rewrite Hq, Hv. cbn [bind].
    change (char_eqb QUOTE AT) with false.
    change (char_eqb QUOTE QUOTE) with true. cbn [andb negb].
    split.
    + intros Hn. destruct (getitem_Ok _ _ _ Hn) as (_ & Hlt).
      apply Nat.ltb_lt in Hlt. rewrite Hlt, Hn. reflexivity.
    + intros Hn. destruct (j + 1 <? length line) eqn:L; [|reflexivity].
      destruct (lookahead_ok line j L) as (next & Hnext).
      rewrite Hnext. cbn [bind].
      destruct (char_eqb next QUOTE) eqn:E; [|reflexivity].
      apply char_eqb_eq in E. subst next. contradiction.
  - intros j' st'. unfold scan_char, py_and.
    destruct (getitem line j) as [char| |]; cbn [bind]; try discriminate.
    destruct st as [d s v e]. simpl in Hv. subst v.
    destruct (getitem line (j + 1)) as [next| |] eqn:G; simpl;
      destruct s; simpl; split_tests;
      intros H; try discriminate H; injection H as <- <-; simpl;
      intros Hd; try discriminate Hd;
      rewrite ?andb_false_r, ?andb_true_r in *; try discriminate;
      rewrite ?char_eqb_eq in *;
      match goal with H : _ = QUOTE |- _ => rewrite H end;
      (split; [reflexivity | split; [|reflexivity]]);
      intros Hn; try discriminate Hn; injection Hn as Hn; subst next.
    all: try match goal with
             | H : char_eqb QUOTE QUOTE = false |- _ => discriminate H
             end.
    all: apply getitem_Ok in G; destruct G as (_ & G);
      apply Nat.ltb_lt in G; congruence.
Qed.

Lemma doubled_quote_stays_verbatim_witness :
  scan_char Examples.verbatim_literal 3 (set_in_verbatim_string true init)
  = Ok (Continue (3 + 2) (set_in_verbatim_string true init)).
Proof.
  refine (proj1 (proj1 (doubled_quote_stays_verbatim
                          Examples.verbatim_literal 3
                          (set_in_verbatim_string true init) _) _) _);
    reflexivity.
Defined.

(** C2, on the code: a backslash inside a regular string sets
    [escape_next] also when it is itself escaped (line 67 does not test
    [escape_next]), so after the two backslashes of
    [Examples.backslash_literal] the closing quote is taken as escaped and
    the scanner is still inside the string at the end of the literal.  The
    bracket that closes [Examples.backslash_attribute] on line 0 is then not
    counted, and the scan returns line 1, on the bracket found inside the
    string literal of [Examples.bracket_assignment]. *)
Theorem escaped_backslash_keeps_string_open :
  scan_char Examples.backslash_literal 2
            {| bracket_depth := 0; in_string := true;
               in_verbatim_string := false; escape_next := true |}
  = Ok (Continue 3 {| bracket_depth := 0; in_string := true;
                      in_verbatim_string := false; escape_next := true |})
  /\
  map (fun c => (fst c, in_string (snd c), escape_next (snd c)))
      (line_trace (S (length Examples.backslash_literal))
                  Examples.backslash_literal 0 init)
  = [(0, false, false); (1, true, false); (2, true, true);
     (3, true, true); (4, true, false)]
  /\
  find_testcase_end
    [Examples.backslash_attribute; Examples.bracket_assignment] 0
  = Ok 1.
Proof. repeat split. Qed.

End ScannerFacts.

(** ** The rewriter *)

Module RewriterFacts.

Import Scanner Rewriter ScannerFacts.

Lemma skipn_nth_cons {A} (l : list A) :
  forall (i : nat) (x : A),
    nth_error l i = Some x -> skipn i l = x :: skipn (S i) l.
Proof.
  induction l as [|y l IH]; intros [|i] x H; simpl in H; try discriminate.
  - injection H as ->. reflexivity.
  - rewrite skipn_cons. rewrite (IH i x H). reflexivity.
Qed.

(** The loop of lines 131-132 copies a slice of the buffer. *)
Lemma getitems_range (lines : list str) (n : nat) :
  forall a : nat,
    a + n <= length lines ->
    getitems lines (seq a n) = Ok (firstn n (skipn a lines)).
Proof.
  induction n as [|n IH]; intros a H; [reflexivity|].
  cbn [seq getitems].
  destruct (getitem_lt lines a ltac:(lia)) as (x & Hx & Hn).
  rewrite Hx. cbn [bind]. rewrite (IH (S a)) by lia. cbn [bind].
  rewrite (skipn_nth_cons lines a x Hn). reflexivity.
Qed.

Lemma dict_get_None (k : str) (d : list (str * str)) :
  dict_get k d = None <-> ~ In k (map fst d).
Proof.
  induction d as [|[k' v] d IH]; simpl; [tauto|].
  destruct (str_eqb k k') eqn:E.
  - apply str_eqb_eq in E. subst. split; [discriminate | tauto].
  - rewrite IH. split.
    + intros H [H1|H1]; [|tauto]. subst.
      rewrite str_eqb_refl in E. discriminate.
    + tauto.
Qed.

Lemma take_drop_while (p : codepoint -> bool) (s : str) :
  s = take_while p s ++ drop_while p s /\
  forallb p (take_while p s) = true.
Proof.
  induction s as [|c s [IH1 IH2]]; simpl; [auto|].
  destruct (p c) eqn:E; simpl; [|auto].
  rewrite E, IH2. split; [congruence | reflexivity].
Qed.

Lemma take_drop_while_app (p : codepoint -> bool) (a : str) (c : codepoint)
    (t : str) :
  forallb p a = true -> p c = false ->
  take_while p (a ++ c :: t) = a /\ drop_while p (a ++ c :: t) = c :: t.
Proof.
  intros Ha Hc. induction a as [|x a IH]; simpl in *.
  - rewrite Hc. auto.
  - apply andb_true_iff in Ha. destruct Ha as (Hx & Ha). rewrite Hx.
    destruct (IH Ha) as (-> & ->). auto.
Qed.

Lemma strip_prefix_Some (prefix : str) :
  forall s rest : str,
    strip_prefix prefix s = Some rest <-> s = prefix ++ rest.
Proof.
  induction prefix as [|p prefix IH]; intros s rest; simpl.
  - split; [intros H; injection H; auto | intros ->; reflexivity].
  - destruct s as [|c s]; [split; discriminate|].
    destruct (char_eqb p c) eqn:E.
    + apply char_eqb_eq in E. subst c. rewrite IH.
      split; [intros ->; reflexivity | intros H; injection H; auto].
    + split; [discriminate|]. intros H. injection H as -> _.
      unfold char_eqb in E. rewrite N.eqb_refl in E. discriminate.
Qed.

Section Unicode.

Variable uni_space : codepoint -> bool.
Variable uni_word : codepoint -> bool.

Notation is_space := (is_space uni_space).
Notation is_word := (is_word uni_word).
Notation match_testcase := (match_testcase uni_space uni_word).
Notation process_step := (process_step uni_space uni_word).
Notation process_loop := (process_loop uni_space uni_word).
Notation process_lines := (process_lines uni_space uni_word).
Notation process_file := (process_file uni_space uni_word).
Notation wrapped := (wrapped uni_space uni_word).

(** [match_testcase] is the pattern of line 115: it succeeds with groups
    [(indent, db_type)] exactly when the line is [indent], a run of [\s],
    then the literal text, then [db_type], a run of [\w] that is not empty,
    then a comma or a closing parenthesis, then anything.  There is at
    most one such way to cut the line, so the order in which [re] tries
    them does not matter. *)
Lemma match_testcase_spec (line indent db_type : str) :
  match_testcase line = Some (indent, db_type) <->
  exists (c : codepoint) (tail : str),
    line = indent ++ lit "[TestCase(DatabaseType." ++ db_type ++ c :: tail /\
    forallb is_space indent = true /\
    db_type <> [] /\ forallb is_word db_type = true /\
    (c = COMMA \/ c = RPAREN).
Proof.
  unfold Rewriter.match_testcase. split.
  - destruct (strip_prefix _ (drop_while is_space line)) as [rest|] eqn:P;
      [|discriminate].
    apply strip_prefix_Some in P.
    destruct (take_drop_while is_space line) as (Hl & Hs).
    destruct (take_drop_while is_word rest) as (Hr & Hw).
    destruct (take_while is_word rest) as [|w ws] eqn:W; [discriminate|].
    destruct (drop_while is_word rest) as [|c tail] eqn:D; [discriminate|].
    destruct (char_eqb c COMMA || char_eqb c RPAREN) eqn:C; [|discriminate].
    intros H. injection H as <- <-. exists c, tail.
    split; [|split; [exact Hs|split; [discriminate|split; [exact Hw|]]]].
    + rewrite Hl at 1. rewrite P, Hr. reflexivity.
    + apply orb_true_iff in C. rewrite !char_eqb_eq in C. exact C.
  - intros (c & tail & -> & Hs & Hne & Hw & Hc).
    destruct (take_drop_while_app is_space indent LBRACKET
                (lit "TestCase(DatabaseType." ++ db_type ++ c :: tail)
                Hs eq_refl) as (Ht & Hd).
    change (lit "[TestCase(DatabaseType." ++ db_type ++ c :: tail)
      with (LBRACKET :: lit "TestCase(DatabaseType." ++ db_type ++ c :: tail).
    rewrite Ht, Hd.
    change (LBRACKET :: lit "TestCase(DatabaseType." ++ db_type ++ c :: tail)
      with (lit "[TestCase(DatabaseType." ++ db_type ++ c :: tail).
    rewrite (proj2 (strip_prefix_Some _ _ _) eq_refl).
    assert (Hcw : is_word c = false) by (destruct Hc; subst; reflexivity).
    destruct (take_drop_while_app is_word db_type c tail Hw Hcw)
      as (-> & ->).
    destruct db_type as [|w ws]; [congruence|].
    destruct Hc; subst; reflexivity.
Qed.

(** *** One pass through the loop body *)

Lemma process_step_copy_plain (lines : list str) (i : nat)
    (new_lines : list str) (count : nat) (line : str) :
  getitem lines i = Ok line ->
  match_testcase line = None ->
  process_step lines i new_lines count
  = Ok (i + 1, new_lines ++ [line], count).
Proof.
  intros Hl Hm. unfold Rewriter.process_step. rewrite Hl. cbn [bind].
  rewrite Hm. reflexivity.
Qed.

Lemma process_step_copy_unknown (lines : list str) (i : nat)
    (new_lines : list str) (count : nat) (line indent db_type : str) :
  getitem lines i = Ok line ->
  match_testcase line = Some (indent, db_type) ->
  ~ In db_type (map fst DB_TYPE_TO_SYMBOL) ->
  process_step lines i new_lines count
  = Ok (i + 1, new_lines ++ [line], count).
Proof.
  intros Hl Hm Hd. apply dict_get_None in Hd.
  unfold Rewriter.process_step. rewrite Hl. cbn [bind].
  rewrite Hm, Hd. reflexivity.
Qed.

Lemma process_step_wrap (lines : list str) (i : nat)
    (new_lines : list str) (count : nat)
    (line indent db_type symbol : str) :
  getitem lines i = Ok line ->
  match_testcase line = Some (indent, db_type) ->
  dict_get db_type DB_TYPE_TO_SYMBOL = Some symbol ->
  exists end_line_index,
    find_testcase_end lines i = Ok end_line_index /\
    i <= end_line_index < length lines /\
    process_step lines i new_lines count
    = Ok (end_line_index + 1,
          new_lines ++ [indent ++ lit "#if " ++ symbol]
                    ++ (line :: firstn (end_line_index - i)
                                       (skipn (S i) lines))
                    ++ [indent ++ lit "#endif"],
          count + 1).
Proof.
  intros Hl Hm Hd. destruct (getitem_Ok _ _ _ Hl) as (Hn & Hi).
  destruct (find_testcase_end_ok lines i Hi) as (e & He & Hb).
  exists e. split; [exact He|]. split; [exact Hb|].
  unfold Rewriter.process_step. rewrite Hl. cbn [bind].
  rewrite Hm, Hd, He. cbn [bind]. unfold range.
  rewrite getitems_range by lia. cbn [bind].
  replace (e + 1 - i) with (S (e - i)) by lia.
  rewrite (skipn_nth_cons lines i line Hn). reflexivity.
Qed.

(** *** Marked outputs *)

Lemma originals_copied (ls : list str) (t : list (mark * str)) :
  originals (map (pair Original) ls ++ t) = ls ++ originals t.
Proof.
  unfold originals. induction ls as [|l ls IH]; [reflexivity|].
  simpl. rewrite IH. reflexivity.
Qed.

Lemma count_mark_copied (m : mark) (ls : list str) (t : list (mark * str)) :
  m <> Original ->
  count_mark m (map (pair Original) ls ++ t) = count_mark m t.
Proof.
  intros Hm. unfold count_mark. induction ls as [|l ls IH]; [reflexivity|].
  simpl. destruct m; [congruence| |]; exact IH.
Qed.

Lemma erase_copied (ls : list str) (t : list (mark * str)) :
  erase (map (pair Original) ls ++ t) = ls ++ erase t.
Proof.
  unfold erase. rewrite map_app, map_map. simpl. rewrite map_id.
  reflexivity.
Qed.

(** In a marked output made of [n] wrapped attributes there are [n]
    guard-opening and [n] guard-closing lines. *)
Lemma wrapped_counts (t : list (mark * str)) (n : nat) :
  wrapped t n -> count_mark GuardOpen t = n /\ count_mark GuardClose t = n.
Proof.
  induction 1 as [|line t n _ [IH1 IH2]
                  |indent db symbol first others t n _ _ _ [IH1 IH2]].
  - split; reflexivity.
  - split; assumption.
  - change ((GuardOpen, indent ++ lit "#if " ++ symbol)
            :: (Original, first)
            :: map (pair Original) others
            ++ (GuardClose, indent ++ lit "#endif") :: t)
      with ((GuardOpen, indent ++ lit "#if " ++ symbol)
            :: map (pair Original) (first :: others)
            ++ (GuardClose, indent ++ lit "#endif") :: t).
    split.
    + change (S (count_mark GuardOpen
                   (map (pair Original) (first :: others)
                    ++ (GuardClose, indent ++ lit "#endif") :: t)) = S n).
      rewrite count_mark_copied by discriminate. f_equal. exact IH1.
    + change (count_mark GuardClose
                (map (pair Original) (first :: others)
                 ++ (GuardClose, indent ++ lit "#endif") :: t) = S n).
      rewrite count_mark_copied by discriminate.
      change (S (count_mark GuardClose t) = S n). f_equal. exact IH2.
Qed.

(** *** The loop *)

Lemma process_loop_wrapped (lines : list str) (fuel : nat) :
  forall (i : nat) (new_lines : list str) (count : nat),
    i <= length lines ->
    length lines - i < fuel ->
    exists (t : list (mark * str)) (n : nat),
      process_loop fuel lines i new_lines count
      = Ok (new_lines ++ erase t, count + n) /\
      originals t = skipn i lines /\
      wrapped t n.
Proof.
  induction fuel as [|fuel IH]; intros i nl c Hi Hf; [lia|].
  cbn [Rewriter.process_loop].
  destruct (i <? length lines) eqn:L.
  - apply Nat.ltb_lt in L.
    destruct (getitem_lt lines i L) as (line & Hl & Hn).
    destruct (match_testcase line) as [[indent db]|] eqn:Hm.
    1: destruct (dict_get db DB_TYPE_TO_SYMBOL) as [symbol|] eqn:Hd.
    + (* a header of a known database type *)
      destruct (process_step_wrap lines i nl c line indent db symbol
                  Hl Hm Hd) as (e & _ & Hb & Hs).
      rewrite Hs. cbn [bind].
      destruct (IH (e + 1) (nl ++ [indent ++ lit "#if " ++ symbol]
                               ++ (line :: firstn (e - i) (skipn (S i) lines))
                               ++ [indent ++ lit "#endif"])
                   (c + 1) ltac:(lia) ltac:(lia))
        as (t & n & Hp & Ho & Hw).
      exists ((GuardOpen, indent ++ lit "#if " ++ symbol)
              :: (Original, line)
              :: map (pair Original) (firstn (e - i) (skipn (S i) lines))
              ++ (GuardClose, indent ++ lit "#endif") :: t), (S n).
      split; [|split].
      * rewrite Hp. f_equal. f_equal; [|lia].
        change (erase ((GuardOpen, indent ++ lit "#if " ++ symbol)
                       :: (Original, line)
                       :: map (pair Original)
                              (firstn (e - i) (skipn (S i) lines))
                       ++ (GuardClose, indent ++ lit "#endif") :: t))
          with ((indent ++ lit "#if " ++ symbol) :: line
                :: erase (map (pair Original)
                              (firstn (e - i) (skipn (S i) lines))
                          ++ (GuardClose, indent ++ lit "#endif") :: t)).
        rewrite erase_copied. cbn [erase map snd app].
        repeat (rewrite <- app_assoc; cbn [app]). reflexivity.
      * change (line :: originals
                  (map (pair Original) (firstn (e - i) (skipn (S i) lines))
                   ++ (GuardClose, indent ++ lit "#endif") :: t)
                = skipn i lines).
        rewrite originals_copied.
        change (originals ((GuardClose, indent ++ lit "#endif") :: t))
          with (originals t).
        rewrite Ho, (skipn_nth_cons lines i line Hn). f_equal.
        replace (skipn (e + 1) lines)
          with (skipn (e - i) (skipn (S i) lines))
          by (rewrite skipn_skipn; f_equal; lia).
        apply firstn_skipn.
      * apply wrapped_span with (db_type := db); assumption.
    + (* a header of an unknown database type *)
      apply dict_get_None in Hd.
      rewrite (process_step_copy_unknown lines i nl c line indent db
                 Hl Hm Hd). cbn [bind].
      destruct (IH (i + 1) (nl ++ [line]) c ltac:(lia) ltac:(lia))
        as (t & n & Hp & Ho & Hw).
      exists ((Original, line) :: t), n. split; [|split].
      * rewrite Hp. cbn [erase map snd]. rewrite <- app_assoc. reflexivity.
      * change (line :: originals t = skipn i lines).
        rewrite Ho, (skipn_nth_cons lines i line Hn). do 2 f_equal. lia.
      * apply wrapped_copy. exact Hw.
    + (* any other line *)
      rewrite (process_step_copy_plain lines i nl c line Hl Hm). cbn [bind].
      destruct (IH (i + 1) (nl ++ [line]) c ltac:(lia) ltac:(lia))
        as (t & n & Hp & Ho & Hw).
      exists ((Original, line) :: t), n. split; [|split].
      * rewrite Hp. cbn [erase map snd]. rewrite <- app_assoc. reflexivity.
      * change (line :: originals t = skipn i lines).
        rewrite Ho, (skipn_nth_cons lines i line Hn). do 2 f_equal. lia.
      * apply wrapped_copy. exact Hw.
  - apply Nat.ltb_ge in L. exists [], 0. split; [|split].
    + rewrite app_nil_r, Nat.add_0_r. reflexivity.
    + rewrite skipn_all2 by lia. reflexivity.
    + apply wrapped_nil.
Qed.

(** *** The claims on the rewriter *)

(** C4: for every sequence of input lines the rewriter ends with an output
    and a count; the output is the input with guard lines inserted, that
    is, deleting the inserted guard-opening and guard-closing lines from it
    gives back the input lines, in order and unchanged; the inserted lines
    come in pairs around the lines of one attribute each, and the count is
    the number of these pairs. *)
Theorem output_is_input_plus_guards (lines : list str) :
  exists (t : list (mark * str)) (n : nat),
    process_lines lines = Ok (erase t, n) /\
    originals t = lines /\
    wrapped t n /\
    count_mark GuardOpen t = n /\ count_mark GuardClose t = n.
Proof.
  destruct (process_loop_wrapped lines (S (length lines)) 0 [] 0
              ltac:(lia) ltac:(lia)) as (t & n & Hp & Ho & Hw).
  exists t, n. split; [exact Hp|]. split; [exact Ho|].
  split; [exact Hw|]. exact (wrapped_counts t n Hw).
Qed.

(** C7: a line that matches the header pattern with a database type that is
    not a key of [DB_TYPE_TO_SYMBOL] is appended to the output as it is,
    without guard lines, and the count is left as it is; the line of the
    unknown database type ([Examples.unknown_attribute]) alone is returned
    unchanged with count 0, and its file is left unmodified. *)
Theorem unknown_backend_copied (lines : list str) (i : nat)
    (new_lines : list str) (count : nat) (line indent db_type : str) :
  getitem lines i = Ok line ->
  match_testcase line = Some (indent, db_type) ->
  ~ In db_type (map fst DB_TYPE_TO_SYMBOL) ->
  process_step lines i new_lines count
  = Ok (i + 1, new_lines ++ [line], count)
  /\ match_testcase Examples.unknown_attribute = Some ([], lit "Unknown")
  /\ process_lines [Examples.unknown_attribute]
     = Ok ([Examples.unknown_attribute], 0)
  /\ process_file (Examples.text_file Examples.unknown_attribute)
     = Ok (0, false, Examples.text_file Examples.unknown_attribute).
Proof.
  intros Hl Hm Hd. split; [|repeat split].
  exact (process_step_copy_unknown lines i new_lines count line indent
           db_type Hl Hm Hd).
Qed.

(** C8: the line made of two spaces and the MySql attribute
    ([Examples.mysql_attribute]) alone gives three lines, the guard-opening
    line for [MYSQL_TESTS], the line itself and the guard-closing line, both
    guards behind the two spaces of the attribute, with count 1; the table
    is the fixed one of five entries. *)
Theorem mysql_attribute_wrapped :
  process_lines [Examples.mysql_attribute]
  = Ok ([lit "  #if MYSQL_TESTS"; Examples.mysql_attribute; lit "  #endif"],
        1)
  /\ match_testcase Examples.mysql_attribute = Some (lit "  ", lit "MySql")
  /\ dict_get (lit "MicrosoftSQLServer") DB_TYPE_TO_SYMBOL
     = Some (lit "MSSQL_TESTS")
  /\ dict_get (lit "MySql") DB_TYPE_TO_SYMBOL = Some (lit "MYSQL_TESTS")
  /\ dict_get (lit "Oracle") DB_TYPE_TO_SYMBOL = Some (lit "ORACLE_TESTS")
  /\ dict_get (lit "PostgreSql") DB_TYPE_TO_SYMBOL
     = Some (lit "POSTGRESQL_TESTS")
  /\ dict_get (lit "Sqlite") DB_TYPE_TO_SYMBOL = Some (lit "SQLITE_TESTS")
  /\ length DB_TYPE_TO_SYMBOL = 5.
Proof. repeat split. Qed.

(** C3, as the code has it: when the scanner goes through the rest of the
    buffer without finding the closing bracket, it returns the start index,
    and the rewriter wraps the header line alone: it appends the
    guard-opening line, the header line and the guard-closing line, adds one
    to the count and goes on at the next line. *)
Theorem unmatched_attribute_wrapped_alone (lines : list str) (i : nat)
    (new_lines : list str) (count : nat)
    (line indent db_type symbol : str) :
  getitem lines i = Ok line ->
  match_testcase line = Some (indent, db_type) ->
  dict_get db_type DB_TYPE_TO_SYMBOL = Some symbol ->
  exhausts lines i ->
  find_testcase_end lines i = Ok i /\
  process_step lines i new_lines count
  = Ok (i + 1,
        new_lines ++ [indent ++ lit "#if " ++ symbol; line;
                      indent ++ lit "#endif"],
        count + 1).
Proof.
  intros Hl Hm Hd Hx. unfold exhausts in Hx.
  assert (He : find_testcase_end lines i = Ok i).
  { unfold find_testcase_end. rewrite Hx. reflexivity. }
  split; [exact He|].
  unfold Rewriter.process_step. rewrite Hl. cbn [bind].
  rewrite Hm, Hd, He. cbn [bind]. unfold range.
  replace (i + 1 - i) with 1 by lia. cbn [seq getitems].
  rewrite Hl. reflexivity.
Qed.

(** C1, on the code: line 100 tests for the guards of [MSSQL_TESTS] and
    [MYSQL_TESTS] only.  A file with one Oracle attribute is wrapped by a
    first run; the result holds a guard-opening line, for [ORACLE_TESTS],
    and a second run does not skip it: it wraps the attribute again,
    reports one attribute wrapped and the file modified. *)
Theorem other_guards_not_detected :
  process_file Examples.oracle_file
  = Ok (1, true, Examples.oracle_file_wrapped)
  /\ contains (lit "#if ORACLE_TESTS") (text Examples.oracle_file_wrapped)
     = true
  /\ process_file Examples.oracle_file_wrapped
     = Ok (1, true, Examples.oracle_file_wrapped_twice)
  /\ text Examples.oracle_file_wrapped_twice
     <> text Examples.oracle_file_wrapped.
Proof.
  repeat split. intros H. vm_compute in H. discriminate H.
Qed.

(** Where the test of line 100 does find a guard, the file is skipped. *)
Lemma process_file_skips_marked (f : file) :
  contains (lit "#if MSSQL_TESTS") (text f) = true \/
  contains (lit "#if MYSQL_TESTS") (text f) = true ->
  process_file f = Ok (0, false, f).
Proof.
  intros H. unfold Rewriter.process_file.
  destruct (negb (readable f)); [reflexivity|].
  destruct H as [-> | ->]; rewrite ?orb_true_r; reflexivity.
Qed.

End Unicode.

(** C3 as the claim has it fails: on the attribute that is never closed
    ([Examples.unclosed_attribute]) the scanner goes through the buffer
    without a match, and the rewriter still emits the two guard lines and
    counts one attribute wrapped, where the claim has the line copied alone
    with count 0. *)
Lemma unmatched_attribute_not_skipped :
  exhausts [Examples.unclosed_attribute] 0 /\
  Rewriter.process_lines Examples.ascii_only Examples.ascii_only
    [Examples.unclosed_attribute]
  = Ok ([lit "#if MYSQL_TESTS"; Examples.unclosed_attribute; lit "#endif"],
        1) /\
  Rewriter.process_lines Examples.ascii_only Examples.ascii_only
    [Examples.unclosed_attribute]
  <> Ok ([Examples.unclosed_attribute], 0).
Proof.
  split; [reflexivity|]. split; [reflexivity|].
  intros H. vm_compute in H. discriminate H.
Qed.

Lemma unmatched_attribute_wrapped_alone_witness :
  find_testcase_end [Examples.unclosed_attribute] 0 = Ok 0 /\
  Rewriter.process_step Examples.ascii_only Examples.ascii_only
    [Examples.unclosed_attribute] 0 [] 0
  = Ok (0 + 1,
        [] ++ [[] ++ lit "#if " ++ lit "MYSQL_TESTS";
               Examples.unclosed_attribute; [] ++ lit "#endif"],
        0 + 1).
Proof.
  apply (unmatched_attribute_wrapped_alone
           Examples.ascii_only Examples.ascii_only
           [Examples.unclosed_attribute] 0 [] 0
           Examples.unclosed_attribute [] (lit "MySql") (lit "MYSQL_TESTS"));
    reflexivity.
Defined.

Lemma unknown_backend_copied_witness :
  Rewriter.process_step Examples.ascii_only Examples.ascii_only
    [Examples.unknown_attribute] 0 [] 0
  = Ok (0 + 1, [] ++ [Examples.unknown_attribute], 0).
Proof.
  refine (proj1 (unknown_backend_copied
                   Examples.ascii_only Examples.ascii_only
                   [Examples.unknown_attribute] 0 [] 0
                   Examples.unknown_attribute [] (lit "Unknown") _ _ _)).
  - reflexivity.
  - reflexivity.
  - intros H. vm_compute in H. intuition discriminate.
Defined.

End RewriterFacts.

(** ** Text: [split], [join] and the substring test *)

Module TextFacts.

Import Rewriter.

Lemma split_shape (s : str) : exists l ls, split s = l :: ls.
Proof.
  induction s as [|c s (l & ls & IH)]; simpl.
  - eexists. eexists. reflexivity.
  - destruct (char_eqb c NEWLINE); rewrite ?IH; eexists; eexists;
      reflexivity.
Qed.

Lemma join_cons_cons (c : codepoint) (l : str) (ls : list str) :
  join ((c :: l) :: ls) = c :: join (l :: ls).
Proof. destruct ls; reflexivity. Qed.

Lemma join_split_id (s : str) : join (split s) = s.
Proof.
  induction s as [|c s IH]; [reflexivity|].
  cbn [split]. destruct (char_eqb c NEWLINE) eqn:E.
  - apply char_eqb_eq in E. subst c.
    destruct (split_shape s) as (l & ls & Hs). rewrite Hs in *.
    change (join ([] :: l :: ls)) with (NEWLINE :: join (l :: ls)).
    rewrite IH. reflexivity.
  - destruct (split_shape s) as (l & ls & Hs). rewrite Hs in *.
    rewrite join_cons_cons, IH. reflexivity.
Qed.

Lemma split_plain (l : str) : ~ In NEWLINE l -> split l = [l].
Proof.
  induction l as [|c l IH]; intros H; [reflexivity|].
  cbn [split]. destruct (char_eqb c NEWLINE) eqn:E.
  - apply char_eqb_eq in E. subst c. exfalso. apply H. left. reflexivity.
  - rewrite IH; [reflexivity|]. intros Hin. apply H. right. exact Hin.
Qed.

Lemma split_app_newline (l r : str) :
  ~ In NEWLINE l -> split (l ++ NEWLINE :: r) = l :: split r.
Proof.
  induction l as [|c l IH]; intros H; [reflexivity|].
  cbn [app split]. destruct (char_eqb c NEWLINE) eqn:E.
  - apply char_eqb_eq in E. subst c. exfalso. apply H. left. reflexivity.
  - rewrite IH; [reflexivity|]. intros Hin. apply H. right. exact Hin.
Qed.

Lemma split_join_id (ls : list str) :
  ls <> [] ->
  Forall (fun l => ~ In NEWLINE l) ls ->
  split (join ls) = ls.
Proof.
  induction ls as [|l ls IH]; intros Hne Hall; [congruence|].
  inversion Hall as [|? ? Hl Hrest]; subst.
  destruct ls as [|l2 ls].
  - exact (split_plain l Hl).
  - change (join (l :: l2 :: ls)) with (l ++ NEWLINE :: join (l2 :: ls)).
    rewrite (split_app_newline _ _ Hl), IH; [reflexivity|discriminate|].
    exact Hrest.
Qed.

Lemma split_lines_facts (s : str) :
  Forall (fun l => ~ In NEWLINE l) (split s) /\
  length (split s) = S (count_occ N.eq_dec s NEWLINE).
Proof.
  induction s as [|c s [IH1 IH2]].
  - split; [repeat constructor; intros []|reflexivity].
  - cbn [split count_occ]. destruct (char_eqb c NEWLINE) eqn:E.
    + apply char_eqb_eq in E. subst c.
      destruct (N.eq_dec NEWLINE NEWLINE) as [_|n]; [|congruence].
      split; [constructor; [intros []|exact IH1]|].
      cbn [length]. rewrite IH2. reflexivity.
    + destruct (N.eq_dec c NEWLINE) as [e|_].
      { subst c. unfold char_eqb in E. rewrite N.eqb_refl in E.
        discriminate. }
      destruct (split_shape s) as (l & ls & Hs). rewrite Hs in *.
      inversion IH1 as [|? ? Hl Hrest]; subst.
      split; [|exact IH2].
      constructor; [|exact Hrest].
      intros [H|H]; [|exact (Hl H)].
      subst c. unfold char_eqb in E. rewrite N.eqb_refl in E.
      discriminate.
Qed.

Lemma startswith_spec (prefix : str) :
  forall s : str,
    startswith prefix s = true <-> exists b, s = prefix ++ b.
Proof.
  induction prefix as [|p prefix IH]; intros s; cbn [startswith].
  - split; [intros _; exists s; reflexivity | reflexivity].
  - destruct s as [|c s].
    + split; [discriminate | intros (b & H); discriminate H].
    + rewrite andb_true_iff, char_eqb_eq, IH. split.
      * intros (-> & b & ->). exists b. reflexivity.
      * intros (b & H). injection H as -> ->. split; [reflexivity|].
        exists b. reflexivity.
Qed.

Lemma contains_iff (needle hay : str) :
  contains needle hay = true <->
  exists a b, hay = a ++ needle ++ b.
Proof.
  induction hay as [|c hay IH]; cbn [contains]; rewrite orb_true_iff,
    startswith_spec.
  - split.
    + intros [(b & H)|H]; [|discriminate]. exists [], b. exact H.
    + intros (a & b & H). left. destruct a; [|discriminate].
      exists b. exact H.
  - rewrite IH. split.
    + intros [(b & H)|(a & b & H)].
      * exists [], b. exact H.
      * exists (c :: a), b. rewrite H. reflexivity.
    + intros (a & b & H). destruct a as [|x a].
      * left. exists b. exact H.
      * right. injection H as -> ->. exists a, b. reflexivity.
Qed.

Lemma contains_app (needle a b : str) :
  contains needle (a ++ needle ++ b) = true.
Proof. apply contains_iff. exists a, b. reflexivity. Qed.

(** A text joined from lines contains what one of the lines contains. *)
Lemma contains_join (needle l : str) (ls : list str) :
  In l ls -> contains needle l = true -> contains needle (join ls) = true.
Proof.
  intros Hin Hc. apply contains_iff in Hc. destruct Hc as (a & b & ->).
  induction ls as [|l0 ls IH]; [destruct Hin|].
  destruct ls as [|l1 ls].
  - destruct Hin as [->|[]]. apply contains_app.
  - change (join (l0 :: l1 :: ls)) with (l0 ++ NEWLINE :: join (l1 :: ls)).
    destruct Hin as [->|Hin].
    + rewrite <- !app_assoc. apply contains_app.
    + specialize (IH Hin). apply contains_iff in IH.
      destruct IH as (a' & b' & ->). apply contains_iff.
      exists (l0 ++ NEWLINE :: a'), b'.
      rewrite <- app_assoc. reflexivity.
Qed.

(** Joining the lines of a text gives the text back: a file in which
    nothing is inserted is written as it was read. *)
Theorem join_split (s : str) : join (split s) = s.
Proof. exact (join_split_id s). Qed.

(** Splitting the text joined from a list of lines gives the lines back,
    when there is at least one line and no line holds a newline. *)
Theorem split_join (ls : list str) :
  ls <> [] ->
  Forall (fun l => ~ In NEWLINE l) ls ->
  split (join ls) = ls.
Proof. exact (split_join_id ls). Qed.

Lemma split_join_witness :
  split (join [lit "a"; []; lit "b"]) = [lit "a"; []; lit "b"].
Proof.
  apply split_join; [discriminate|].
  repeat constructor; intros H; vm_compute in H; intuition discriminate.
Defined.

(** The lines of a text hold no newline, and there is one line more than
    there are newlines in the text (so at least one line, also for the empty
    text). *)
Theorem split_lines (s : str) :
  Forall (fun l => ~ In NEWLINE l) (split s) /\
  length (split s) = S (count_occ N.eq_dec s NEWLINE).
Proof. exact (split_lines_facts s). Qed.

(** The test [needle in hay] holds exactly when [hay] is some text, then
    [needle], then some text. *)
Theorem contains_spec (needle hay : str) :
  contains needle hay = true <->
  exists a b, hay = a ++ needle ++ b.
Proof. exact (contains_iff needle hay). Qed.

End TextFacts.

(** ** More on the scanner *)

Module ScannerMore.

Import Scanner Rewriter ScannerFacts.

(** *** Invariants of the scan state *)

(** What the loop body keeps, the whole scan keeps. *)
Lemma lines_trace_invariant (P : ScanState -> Prop) :
  (forall line j st j' st',
      scan_char line j st = Ok (Continue j' st') -> P st -> P st') ->
  forall (lines : list str) (idxs : list nat) (st : ScanState),
    P st -> Forall (fun c => P (snd c)) (lines_trace idxs lines st).
Proof.
  intros Hstep lines.
  assert (Htrace : forall fuel line j st,
             P st -> Forall (fun c => P (snd c)) (line_trace fuel line j st)).
  { induction fuel as [|fuel IH]; intros line j st HP; cbn [line_trace];
      [constructor|].
    constructor; [exact HP|].
    destruct (j <? length line); [|constructor].
    destruct (scan_char line j st) as [[j1 st1|]| |] eqn:Hc;
      try constructor.
    apply IH. exact (Hstep _ _ _ _ _ Hc HP). }
  assert (Hend : forall fuel line j st st',
             scan_line fuel line j st = Ok (Some st') -> P st -> P st').
  { induction fuel as [|fuel IH]; intros line j st st'; cbn [scan_line];
      [discriminate|].
    destruct (j <? length line).
    - destruct (scan_char line j st) as [[j1 st1|]| |] eqn:Hc; cbn [bind];
        try discriminate.
      intros H HP. exact (IH _ _ _ _ H (Hstep _ _ _ _ _ Hc HP)).
    - intros H HP. injection H as <-. exact HP. }
  induction idxs as [|i idxs IH]; intros st HP; cbn [lines_trace];
    [constructor|].
  destruct (getitem lines i) as [line| |]; [|constructor|constructor].
  apply Forall_app. split.
  - apply Forall_map. cbn [snd]. apply Htrace. exact HP.
  - destruct (scan_line (S (length line)) line 0 st) as [[st'|]| |] eqn:Hl;
      try constructor.
    apply IH. exact (Hend _ _ _ _ _ Hl HP).
Qed.

Lemma scan_char_escape (line : str) (j : nat) (st : ScanState)
    (j' : nat) (st' : ScanState) :
  scan_char line j st = Ok (Continue j' st') ->
  escape_in_string st -> escape_in_string st'.
Proof.
  unfold scan_char, escape_in_string, py_and.
  destruct (getitem line j) as [char| |]; simpl; try discriminate.
  destruct (getitem line (j + 1)) as [next| |];
    destruct st as [d s v e]; simpl;
    destruct s, v, e; simpl; split_tests;
    intros H; try discriminate H; injection H as <- <-; simpl; intros H;
    try (intros; discriminate); try (split; reflexivity);
    try (destruct H as [H1 H2]; [reflexivity|]; discriminate);
    rewrite ?andb_false_r, ?andb_true_r in *; try discriminate;
    intros _; auto.
Qed.

(** In every configuration a scan goes through, [escape_next] is set only
    while [in_string] holds and [in_verbatim_string] does not: outside a
    regular string no character is taken as escaped. *)
Theorem escape_only_in_string (lines : list str) (start_index : nat) :
  Forall (fun c => escape_in_string (snd c))
         (find_testcase_end_trace lines start_index).
Proof.
  apply (lines_trace_invariant escape_in_string scan_char_escape).
  intros H. discriminate H.
Qed.

(** *** Where the scan returns *)

(** Line 79 is reached only at a closing bracket outside strings that
    brings the depth from one to zero. *)
Lemma scan_char_Return (line : str) (j : nat) (st : ScanState) :
  scan_char line j st = Ok Return ->
  nth_error line j = Some RBRACKET /\
  in_string st = false /\ in_verbatim_string st = false /\
  bracket_depth st = 1%Z.
Proof.
  unfold scan_char, py_and.
  destruct (getitem line j) as [char| |] eqn:G; cbn [bind];
    try discriminate.
  apply getitem_Ok in G. destruct G as (G & _). rewrite G.
  destruct (getitem line (j + 1)) as [next| |];
    destruct st as [d s v e]; simpl;
    destruct s, v; simpl; split_tests;
    intros H; try discriminate H;
    rewrite ?char_eqb_eq in *; subst;
    try (exfalso; match goal with E : _ = _ :> codepoint |- _ =>
                    discriminate E end);
    (split; [reflexivity|]); (split; [reflexivity|]);
    (split; [reflexivity|]);
    match goal with H : (_ =? 0)%Z = true |- _ => apply Z.eqb_eq in H end;
    lia.
Qed.

Lemma scan_line_None (fuel : nat) (line : str) :
  forall (j : nat) (st : ScanState),
    scan_line fuel line j st = Ok None ->
    exists j' st', scan_char line j' st' = Ok Return.
Proof.
  induction fuel as [|fuel IH]; intros j st; cbn [scan_line];
    [discriminate|].
  destruct (j <? length line); [|discriminate].
  destruct (scan_char line j st) as [[j1 st1|]| |] eqn:Hc; cbn [bind];
    try discriminate.
  - apply IH.
  - intros _. exists j, st. exact Hc.
Qed.

Lemma scan_lines_Some (lines : list str) (idxs : list nat) :
  forall (st : ScanState) (i : nat),
    scan_lines idxs lines st = Ok (Some i) ->
    exists line j st',
      nth_error lines i = Some line /\ scan_char line j st' = Ok Return.
Proof.
  induction idxs as [|i0 idxs IH]; intros st i; [discriminate|].
  rewrite scan_lines_cons.
  destruct (getitem lines i0) as [line| |] eqn:G; cbn [bind];
    try discriminate.
  destruct (scan_line (S (length line)) line 0 st) as [[st'|]| |] eqn:Hl;
    cbn [bind]; try discriminate.
  - apply IH.
  - intros H. injection H as <-.
    destruct (scan_line_None _ _ _ _ Hl) as (j & st' & Hr).
    apply getitem_Ok in G. destruct G as (G & _).
    exists line, j, st'. auto.
Qed.

(** The index that [find_testcase_end] returns is either the fallback of
    line 85, the start index after the loops have run out, or the index of
    a line that holds a closing bracket. *)
Theorem returned_line_has_closing_bracket
    (lines : list str) (start_index i : nat) :
  find_testcase_end lines start_index = Ok i ->
  (exhausts lines start_index /\ i = start_index) \/
  (exists line j,
      nth_error lines i = Some line /\ nth_error line j = Some RBRACKET).
Proof.
  unfold find_testcase_end, exhausts.
  destruct (scan_lines (range start_index (length lines)) lines init)
    as [[i'|]| |] eqn:Hs; cbn [bind]; try discriminate;
    intros H; injection H as <-.
  - right. destruct (scan_lines_Some _ _ _ _ Hs) as (line & j & st & Hn & Hr).
    exists line, j. split; [exact Hn|].
    exact (proj1 (scan_char_Return _ _ _ Hr)).
  - left. auto.
Qed.

Lemma returned_line_has_closing_bracket_witness :
  (exhausts Examples.two_line_attribute 0 /\ 1 = 0) \/
  (exists line j,
      nth_error Examples.two_line_attribute 1 = Some line /\
      nth_error line j = Some RBRACKET).
Proof.
  apply (returned_line_has_closing_bracket Examples.two_line_attribute 0 1).
  reflexivity.
Defined.

(** *** An attribute on one line *)

(** With enough fuel the loop of a line does not depend on the fuel. *)
Lemma scan_line_fuel (line : str) (fuel : nat) :
  forall (fuel' j : nat) (st : ScanState),
    length line - j < fuel -> length line - j < fuel' ->
    scan_line fuel line j st = scan_line fuel' line j st.
Proof.
  induction fuel as [|fuel IH]; intros fuel' j st H H'; [lia|].
  destruct fuel' as [|fuel']; [lia|]. cbn [scan_line].
  destruct (j <? length line) eqn:L; [|reflexivity].
  apply Nat.ltb_lt in L.
  destruct (scan_char_ok line j st L) as (c & Hc & Hb). rewrite Hc.
  cbn [bind]. destruct c as [j1 st1|]; [|reflexivity].
  apply IH; lia.
Qed.

Lemma scan_line_S (line : str) (fuel j : nat) (st : ScanState) :
  scan_line (S fuel) line j st
  = if j <? length line then
      c <- scan_char line j st ;;
      match c with
      | Return => Ok None
      | Continue j' st' => scan_line fuel line j' st'
      end
    else Ok (Some st).
Proof. reflexivity. Qed.

Lemma scan_line_step (line : str) (fuel j : nat) (st : ScanState)
    (j' : nat) (st' : ScanState) :
  j < length line -> length line - j < fuel ->
  scan_char line j st = Ok (Continue j' st') ->
  scan_line fuel line j st = scan_line fuel line j' st'.
Proof.
  intros L H Hc. destruct fuel as [|fuel]; [lia|].
  destruct (scan_char_ok line j st L) as (c & Hc' & Hb).
  rewrite Hc in Hc'. injection Hc' as <-.
  rewrite scan_line_S at 1. apply Nat.ltb_lt in L. rewrite L, Hc.
  cbn [bind]. apply Nat.ltb_lt in L. apply scan_line_fuel; lia.
Qed.

Lemma scan_line_return (line : str) (fuel j : nat) (st : ScanState) :
  j < length line -> 0 < fuel ->
  scan_char line j st = Ok Return ->
  scan_line fuel line j st = Ok None.
Proof.
  intros L H Hc. destruct fuel as [|fuel]; [lia|].
  rewrite scan_line_S. apply Nat.ltb_lt in L. rewrite L, Hc. reflexivity.
Qed.

Ltac getitem_at_next E :=
  match type of E with
  | nth_error ?line ?k = _ =>
      change (getitem line k)
        with (match nth_error line k with
              | Some x => Ok x
              | None => IndexError
              end);
      rewrite E
  end.

(** Outside strings a plain character not followed by a double quote is
    passed over. *)
Lemma scan_char_plain (line : str) (j : nat) (d : Z) (c : codepoint) :
  nth_error line j = Some c ->
  plain c = true ->
  nth_error line (j + 1) <> Some QUOTE ->
  scan_char line j (mkScan d false false false)
  = Ok (Continue (j + 1) (mkScan d false false false)).
Proof.
  intros Hc Hp Hn. unfold scan_char, py_and.
  unfold getitem at 1. rewrite Hc.
  cbn [bind]. unfold plain in Hp.
  apply andb_true_iff in Hp. destruct Hp as (Hp & H3).
  apply andb_true_iff in Hp. destruct Hp as (H1 & H2).
  apply negb_true_iff in H1, H2, H3.
  destruct (nth_error line (j + 1)) as [next|] eqn:E.
  - assert (Hq : char_eqb next QUOTE = false).
    { destruct (char_eqb next QUOTE) eqn:Q; [|reflexivity].
      apply char_eqb_eq in Q. subst next. congruence. }
    getitem_at_next E;
      destruct (char_eqb c AT); destruct (char_eqb c BACKSLASH);
      destruct (j + 1 <? length line);
      cbn; rewrite ?Hq, ?H1, ?H2, ?H3; cbn; rewrite ?Hq; reflexivity.
  - assert (L : (j + 1 <? length line) = false)
      by (apply Nat.ltb_ge, nth_error_None; exact E).
    rewrite L.
    destruct (char_eqb c AT); destruct (char_eqb c BACKSLASH);
      cbn; rewrite ?H1, ?H2, ?H3; reflexivity.
Qed.

Lemma nth_error_middle {A} (a : list A) (x : A) (b : list A) :
  nth_error (a ++ x :: b) (length a) = Some x.
Proof. induction a as [|y a IH]; [reflexivity|exact IH]. Qed.

Lemma scan_char_open (line : str) (j : nat) (d : Z) :
  nth_error line j = Some LBRACKET ->
  scan_char line j (mkScan d false false false)
  = Ok (Continue (j + 1) (mkScan (d + 1) false false false)).
Proof.
  intros H. unfold scan_char, py_and. unfold getitem at 1. rewrite H.
  reflexivity.
Qed.

Lemma scan_char_close (line : str) (j : nat) :
  nth_error line j = Some RBRACKET ->
  scan_char line j (mkScan 1 false false false) = Ok Return.
Proof.
  intros H. unfold scan_char, py_and. unfold getitem at 1. rewrite H.
  reflexivity.
Qed.

Lemma scan_plain_run (body : str) :
  forall (pre rest : str) (d : Z) (fuel : nat),
    forallb plain body = true ->
    hd_error rest <> Some QUOTE ->
    length (pre ++ body ++ rest) - length pre < fuel ->
    scan_line fuel (pre ++ body ++ rest) (length pre)
              (mkScan d false false false)
    = scan_line fuel (pre ++ body ++ rest) (length pre + length body)
                (mkScan d false false false).
Proof.
  induction body as [|c body IH]; intros pre rest d fuel Hb Hr Hf.
  - cbn [length]. rewrite Nat.add_0_r. reflexivity.
  - cbn [forallb] in Hb. apply andb_true_iff in Hb.
    destruct Hb as (Hc & Hb).
    rewrite (scan_line_step _ fuel (length pre) _ (length pre + 1)
               (mkScan d false false false)).
    + replace (pre ++ (c :: body) ++ rest)
        with ((pre ++ [c]) ++ body ++ rest)
        by (rewrite <- app_assoc; reflexivity).
      replace (length pre + 1) with (length (pre ++ [c]))
        by (rewrite length_app; reflexivity).
      rewrite (IH (pre ++ [c]) rest d fuel Hb Hr).
      * rewrite length_app. cbn [length]. f_equal. lia.
      * clear IH. rewrite <- app_assoc. cbn [app] in Hf |- *.
        rewrite !length_app in Hf |- *. cbn [length] in Hf |- *.
        rewrite ?length_app in Hf |- *.
        rewrite (length_app pre [c]). cbn [length]. lia.
    + rewrite !length_app. cbn [length]. lia.
    + exact Hf.
    + apply scan_char_plain with (c := c).
      * apply nth_error_middle.
      * exact Hc.
      * rewrite nth_error_app2 by lia.
        replace (length pre + 1 - length pre) with 1 by lia.
        cbn [app nth_error]. destruct body as [|c' body].
        -- cbn [app]. destruct rest as [|r rest]; [discriminate|].
           exact Hr.
        -- cbn [app nth_error]. cbn [forallb] in Hb.
           apply andb_true_iff in Hb. destruct Hb as (Hc' & _).
           intros E. injection E as ->. discriminate Hc'.
Qed.

Lemma find_testcase_end_simple
    (lines : list str) (i : nat) (pre body tail : str) :
  nth_error lines i = Some (pre ++ LBRACKET :: body ++ RBRACKET :: tail) ->
  forallb plain pre = true ->
  forallb plain body = true ->
  find_testcase_end lines i = Ok i.
Proof.
  intros Hn Hpre Hbody.
  assert (Hi : i < length lines) by (apply nth_error_Some; congruence).
  unfold find_testcase_end, range.
  replace (length lines - i) with (S (length lines - S i)) by lia.
  cbn [seq]. rewrite scan_lines_cons. unfold getitem at 1. rewrite Hn.
  cbn [bind].
  set (line := pre ++ LBRACKET :: body ++ RBRACKET :: tail).
  assert (Hlen : length line
                 = length pre + S (length body + S (length tail))).
  { unfold line. rewrite length_app. cbn [length]. rewrite length_app.
    reflexivity. }
  assert (Hs : scan_line (S (length line)) line 0 init = Ok None).
  { change 0 with (length (@nil codepoint)).
    change line with ([] ++ pre ++ LBRACKET :: body ++ RBRACKET :: tail).
    change init with (mkScan 0 false false false).
    rewrite (scan_plain_run pre [] _ 0 _ Hpre);
      [|discriminate|cbn [app length]; fold line; lia].
    cbn [app length]. fold line.
    (* the opening bracket *)
    rewrite (scan_line_step line _ (length pre) _ (length pre + 1)
               (mkScan 1 false false false)); [|lia|lia|].
    2:{ apply (scan_char_open line (length pre) 0).
        apply nth_error_middle. }
    (* the characters between the brackets *)
    unfold line.
    replace (pre ++ LBRACKET :: body ++ RBRACKET :: tail)
      with ((pre ++ [LBRACKET]) ++ body ++ RBRACKET :: tail)
      by (rewrite <- app_assoc; reflexivity).
    replace (length pre + 1) with (length (pre ++ [LBRACKET]))
      by (rewrite length_app; reflexivity).
    rewrite (scan_plain_run body (pre ++ [LBRACKET]) _ 1 _ Hbody);
      [|discriminate|rewrite !length_app; cbn [length]; lia].
    (* the closing bracket *)
    apply scan_line_return; [|lia|].
    - rewrite !length_app. cbn [length]. lia.
    - apply scan_char_close.
      rewrite app_assoc, <- length_app. apply nth_error_middle. }
  rewrite Hs. reflexivity.
Qed.

(** A line made of plain characters, an opening bracket, plain characters
    and a closing bracket, whatever follows it, is where its attribute
    ends: without string literals and nested brackets in the attribute,
    the scan started on that line returns that line. *)
Theorem simple_attribute_ends_on_its_line
    (lines : list str) (i : nat) (pre body tail : str) :
  nth_error lines i = Some (pre ++ LBRACKET :: body ++ RBRACKET :: tail) ->
  forallb plain pre = true ->
  forallb plain body = true ->
  find_testcase_end lines i = Ok i.
Proof. exact (find_testcase_end_simple lines i pre body tail). Qed.

(** *** The lines a scan depends on *)

Lemma scan_lines_shift (pre lines : list str) (n : nat) :
  forall (a : nat) (st : ScanState),
    scan_lines (seq (length pre + a) n) (pre ++ lines) st
    = (r <- scan_lines (seq a n) lines st ;;
       Ok (option_map (fun i => length pre + i) r)).
Proof.
  induction n as [|n IH]; intros a st; [reflexivity|].
  cbn [seq]. rewrite !scan_lines_cons.
  unfold getitem.
  rewrite nth_error_app2 by lia.
  replace (length pre + a - length pre) with a by lia.
  destruct (nth_error lines a) as [line|]; cbn [bind]; [|reflexivity].
  destruct (scan_line (S (length line)) line 0 st) as [[st'|]| |];
    cbn [bind]; try reflexivity.
  replace (S (length pre + a)) with (length pre + S a) by lia.
  apply IH.
Qed.

(** The scan does not look at the lines before [start_index]: with lines
    put in front of the buffer and the start index moved accordingly, the
    result moves by as much. *)
Theorem earlier_lines_do_not_matter
    (pre lines : list str) (start_index : nat) :
  find_testcase_end (pre ++ lines) (length pre + start_index)
  = (i <- find_testcase_end lines start_index ;; Ok (length pre + i)).
Proof.
  unfold find_testcase_end, range. rewrite length_app.
  replace (length pre + length lines - (length pre + start_index))
    with (length lines - start_index) by lia.
  rewrite scan_lines_shift.
  destruct (scan_lines (seq start_index (length lines - start_index))
                       lines init) as [[i|]| |]; reflexivity.
Qed.

Lemma scan_lines_more (lines suffix : list str) (idxs more : list nat) :
  forall (st : ScanState) (i : nat),
    scan_lines idxs lines st = Ok (Some i) ->
    scan_lines (idxs ++ more) (lines ++ suffix) st = Ok (Some i).
Proof.
  induction idxs as [|i0 idxs IH]; intros st i; [discriminate|].
  cbn [app]. rewrite !scan_lines_cons.
  destruct (getitem lines i0) as [line| |] eqn:G; cbn [bind];
    try discriminate.
  apply getitem_Ok in G. destruct G as (G & Hlt).
  unfold getitem. rewrite nth_error_app1 by exact Hlt. rewrite G.
  cbn [bind].
  destruct (scan_line (S (length line)) line 0 st) as [[st'|]| |];
    cbn [bind]; try discriminate; [apply IH | auto].
Qed.

(** Nor does it look at the lines after the one it returns: when the scan
    finds the closing bracket, lines added at the end of the buffer do not
    change the result. *)
Theorem later_lines_do_not_matter
    (lines suffix : list str) (start_index i : nat) :
  scan_lines (range start_index (length lines)) lines init = Ok (Some i) ->
  find_testcase_end lines start_index = Ok i /\
  find_testcase_end (lines ++ suffix) start_index = Ok i.
Proof.
  intros H. unfold find_testcase_end. rewrite H. split; [reflexivity|].
  assert (Hs : start_index < length lines).
  { destruct (Nat.lt_ge_cases start_index (length lines)) as [L|L];
      [exact L|].
    unfold range in H. replace (length lines - start_index) with 0 in H
      by lia. discriminate H. }
  assert (Hr : range start_index (length (lines ++ suffix))
               = range start_index (length lines)
                 ++ seq (length lines) (length suffix)).
  { unfold range. rewrite length_app.
    replace (length lines + length suffix - start_index)
      with ((length lines - start_index) + length suffix) by lia.
    rewrite seq_app. do 2 f_equal. lia. }
  rewrite Hr, (scan_lines_more lines suffix _ _ init i H). reflexivity.
Qed.

Lemma later_lines_do_not_matter_witness :
  find_testcase_end Examples.two_line_attribute 0 = Ok 1 /\
  find_testcase_end (Examples.two_line_attribute ++ [lit "]"]) 0 = Ok 1.
Proof.
  apply (later_lines_do_not_matter Examples.two_line_attribute [lit "]"] 0 1).
  reflexivity.
Defined.

Lemma simple_attribute_ends_on_its_line_witness :
  find_testcase_end [lit "x"; lit "  [Test(1, 'a')]  // [y]"; lit "]"] 1
  = Ok 1.
Proof.
  apply (simple_attribute_ends_on_its_line
           [lit "x"; lit "  [Test(1, 'a')]  // [y]"; lit "]"] 1
           (lit "  ") (lit "Test(1, 'a')") (lit "  // [y]"));
    reflexivity.
Defined.

End ScannerMore.

(** ** More on the rewriter *)

Module RewriterMore.

Import Scanner Rewriter ScannerFacts RewriterFacts TextFacts.

Lemma symbol_no_newline (db_type symbol : str) :
  dict_get db_type DB_TYPE_TO_SYMBOL = Some symbol -> ~ In NEWLINE symbol.
Proof.
  unfold DB_TYPE_TO_SYMBOL. cbn [dict_get].
  repeat match goal with
         | |- context [if ?b then _ else _] => destruct b
         end;
    intros H; try discriminate H; injection H as <-;
    intros Hin; vm_compute in Hin; intuition discriminate.
Qed.

Lemma erase_all_original (ls : list str) :
  erase (map (pair Original) ls) = ls /\
  originals (map (pair Original) ls) = ls.
Proof.
  split.
  - rewrite <- (app_nil_r (map (pair Original) ls)), erase_copied.
    apply app_nil_r.
  - rewrite <- (app_nil_r (map (pair Original) ls)), originals_copied.
    apply app_nil_r.
Qed.

Section Unicode.

Variable uni_space : codepoint -> bool.
Variable uni_word : codepoint -> bool.

Notation match_testcase := (match_testcase uni_space uni_word).
Notation process_step := (process_step uni_space uni_word).
Notation process_lines := (process_lines uni_space uni_word).
Notation process_file := (process_file uni_space uni_word).
Notation wrapped := (wrapped uni_space uni_word).

Lemma wrapped_all_original (ls : list str) :
  wrapped (map (pair Original) ls) 0.
Proof.
  induction ls as [|l ls IH]; [apply wrapped_nil|].
  apply wrapped_copy. exact IH.
Qed.

Lemma process_lines_wrapped (lines : list str) :
  exists (t : list (mark * str)) (n : nat),
    process_lines lines = Ok (erase t, n) /\
    originals t = lines /\ wrapped t n.
Proof.
  exact (process_loop_wrapped uni_space uni_word lines (S (length lines))
           0 [] 0 ltac:(lia) ltac:(lia)).
Qed.

(** Each wrapped attribute adds two lines and holds at least one. *)
Lemma wrapped_length (t : list (mark * str)) (n : nat) :
  wrapped t n ->
  length (erase t) = length (originals t) + 2 * n /\
  n <= length (originals t).
Proof.
  induction 1 as [|line t n _ [IH1 IH2]
                  |indent db symbol first others t n _ _ _ [IH1 IH2]].
  - split; reflexivity.
  - change (erase ((Original, line) :: t)) with (line :: erase t).
    change (originals ((Original, line) :: t)) with (line :: originals t).
    cbn [length]. lia.
  - change (erase ((GuardOpen, indent ++ lit "#if " ++ symbol)
                   :: (Original, first)
                   :: map (pair Original) others
                   ++ (GuardClose, indent ++ lit "#endif") :: t))
      with ((indent ++ lit "#if " ++ symbol) :: first
            :: erase (map (pair Original) others
                      ++ (GuardClose, indent ++ lit "#endif") :: t)).
    change (originals ((GuardOpen, indent ++ lit "#if " ++ symbol)
                       :: (Original, first)
                       :: map (pair Original) others
                       ++ (GuardClose, indent ++ lit "#endif") :: t))
      with (first
            :: originals (map (pair Original) others
                          ++ (GuardClose, indent ++ lit "#endif") :: t)).
    rewrite erase_copied, originals_copied.
    change (erase ((GuardClose, indent ++ lit "#endif") :: t))
      with ((indent ++ lit "#endif") :: erase t).
    change (originals ((GuardClose, indent ++ lit "#endif") :: t))
      with (originals t).
    cbn [length]. rewrite !length_app. cbn [length]. lia.
Qed.

Lemma wrapped_zero (t : list (mark * str)) (n : nat) :
  wrapped t n -> n = 0 -> erase t = originals t.
Proof.
  induction 1 as [|line t n _ IH|]; intros Hn; [reflexivity| |discriminate].
  change (line :: erase t = line :: originals t). f_equal. exact (IH Hn).
Qed.

(** The guard lines hold no newline when the lines of the input hold
    none. *)
Lemma wrapped_no_newline (t : list (mark * str)) (n : nat) :
  wrapped t n ->
  Forall (fun l => ~ In NEWLINE l) (originals t) ->
  Forall (fun l => ~ In NEWLINE l) (erase t).
Proof.
  induction 1 as [|line t n _ IH
                  |indent db symbol first others t n Hm Hd _ IH].
  - constructor.
  - change (originals ((Original, line) :: t)) with (line :: originals t).
    change (erase ((Original, line) :: t)) with (line :: erase t).
    intros H. inversion H; subst. constructor; auto.
  - change (originals ((GuardOpen, indent ++ lit "#if " ++ symbol)
                       :: (Original, first)
                       :: map (pair Original) others
                       ++ (GuardClose, indent ++ lit "#endif") :: t))
      with (first
            :: originals (map (pair Original) others
                          ++ (GuardClose, indent ++ lit "#endif") :: t)).
    change (erase ((GuardOpen, indent ++ lit "#if " ++ symbol)
                   :: (Original, first)
                   :: map (pair Original) others
                   ++ (GuardClose, indent ++ lit "#endif") :: t))
      with ((indent ++ lit "#if " ++ symbol) :: first
            :: erase (map (pair Original) others
                      ++ (GuardClose, indent ++ lit "#endif") :: t)).
    rewrite erase_copied, originals_copied.
    change (erase ((GuardClose, indent ++ lit "#endif") :: t))
      with ((indent ++ lit "#endif") :: erase t).
    change (originals ((GuardClose, indent ++ lit "#endif") :: t))
      with (originals t).
    intros H. inversion H as [|? ? Hfirst Hrest]; subst.
    apply Forall_app in Hrest. destruct Hrest as (Hothers & Ht).
    assert (Hindent : ~ In NEWLINE indent).
    { apply match_testcase_spec in Hm.
      destruct Hm as (c & tail & -> & _). intros Hin. apply Hfirst.
      apply in_or_app. left. exact Hin. }
    constructor; [|constructor; [exact Hfirst|]].
    + intros Hin. apply in_app_or in Hin. destruct Hin as [Hin|Hin];
        [exact (Hindent Hin)|].
      apply in_app_or in Hin. destruct Hin as [Hin|Hin].
      * vm_compute in Hin. intuition discriminate.
      * exact (symbol_no_newline _ _ Hd Hin).
    + apply Forall_app. split; [exact Hothers|].
      constructor; [|exact (IH Ht)].
      intros Hin. apply in_app_or in Hin. destruct Hin as [Hin|Hin];
        [exact (Hindent Hin)|].
      vm_compute in Hin. intuition discriminate.
Qed.

(** *** [process_lines] *)

(** For every list of lines the rewriter returns an output with two lines
    more per attribute counted, and it counts no more attributes than there
    are lines. *)
Theorem process_lines_length (lines : list str) :
  exists (new_lines : list str) (count : nat),
    process_lines lines = Ok (new_lines, count) /\
    length new_lines = length lines + 2 * count /\
    count <= length lines.
Proof.
  destruct (process_lines_wrapped lines) as (t & n & Hp & Ho & Hw).
  exists (erase t), n. split; [exact Hp|].
  destruct (wrapped_length t n Hw) as (H1 & H2).
  rewrite Ho in *. auto.
Qed.

(** The output is the input exactly when no attribute is counted. *)
Theorem process_lines_unchanged_iff
    (lines new_lines : list str) (count : nat) :
  process_lines lines = Ok (new_lines, count) ->
  (count = 0 <-> new_lines = lines).
Proof.
  intros H. destruct (process_lines_wrapped lines) as (t & n & Hp & Ho & Hw).
  rewrite Hp in H. injection H as <- <-. split.
  - intros Hn. rewrite (wrapped_zero t n Hw Hn). exact Ho.
  - intros He. destruct (wrapped_length t n Hw) as (H1 & _).
    rewrite He, Ho in H1. lia.
Qed.


(** *** Header lines *)

(** The header pattern of line 115 matches a line, with groups [indent] and
    [db_type], exactly when the line is [indent], made of whitespace, then
    the text that opens the attribute, then [db_type], made of word
    characters and not empty, then a comma or a closing parenthesis, then
    anything: the groups are determined by the line. *)
Theorem header_line_shape (line indent db_type : str) :
  match_testcase line = Some (indent, db_type) <->
  exists (c : codepoint) (tail : str),
    line = indent ++ lit "[TestCase(DatabaseType." ++ db_type ++ c :: tail /\
    forallb (is_space uni_space) indent = true /\
    db_type <> [] /\ forallb (is_word uni_word) db_type = true /\
    (c = COMMA \/ c = RPAREN).
Proof. exact (match_testcase_spec uni_space uni_word line indent db_type). Qed.

Lemma plain_of_space (c : codepoint) :
  is_space uni_space c = true -> plain c = true.
Proof.
  intros H. unfold plain.
  destruct (char_eqb c QUOTE) eqn:E1;
    [apply char_eqb_eq in E1; subst c; discriminate H|].
  destruct (char_eqb c LBRACKET) eqn:E2;
    [apply char_eqb_eq in E2; subst c; discriminate H|].
  destruct (char_eqb c RBRACKET) eqn:E3;
    [apply char_eqb_eq in E3; subst c; discriminate H|].
  reflexivity.
Qed.

Lemma process_step_single (lines : list str) (i : nat)
    (new_lines : list str) (count : nat)
    (line indent db_type symbol : str) :
  getitem lines i = Ok line ->
  match_testcase line = Some (indent, db_type) ->
  dict_get db_type DB_TYPE_TO_SYMBOL = Some symbol ->
  find_testcase_end lines i = Ok i ->
  process_step lines i new_lines count
  = Ok (i + 1,
        new_lines ++ [indent ++ lit "#if " ++ symbol; line;
                      indent ++ lit "#endif"],
        count + 1).
Proof.
  intros Hl Hm Hd He.
  unfold Rewriter.process_step. rewrite Hl. cbn [bind].
  rewrite Hm, Hd, He. cbn [bind]. unfold range.
  replace (i + 1 - i) with 1 by lia. cbn [seq getitems].
  rewrite Hl. reflexivity.
Qed.

(** A header of a known database type whose attribute is closed on the
    header line, with neither double quotes nor brackets inside, is
    wrapped alone: the guard-opening line, the header line and the
    guard-closing line are appended, whatever the lines that follow. *)
Theorem one_line_attribute_wrapped_alone (lines : list str) (i : nat)
    (new_lines : list str) (count : nat)
    (indent db_type symbol body tail : str) :
  getitem lines i = Ok (indent ++ LBRACKET :: body ++ RBRACKET :: tail) ->
  match_testcase (indent ++ LBRACKET :: body ++ RBRACKET :: tail)
  = Some (indent, db_type) ->
  dict_get db_type DB_TYPE_TO_SYMBOL = Some symbol ->
  forallb plain body = true ->
  process_step lines i new_lines count
  = Ok (i + 1,
        new_lines ++ [indent ++ lit "#if " ++ symbol;
                      indent ++ LBRACKET :: body ++ RBRACKET :: tail;
                      indent ++ lit "#endif"],
        count + 1).
Proof.
  intros Hl Hm Hd Hb.
  apply (process_step_single lines i new_lines count _ indent db_type
           symbol Hl Hm Hd).
  apply (ScannerMore.find_testcase_end_simple lines i indent body tail).
  - exact (proj1 (getitem_Ok _ _ _ Hl)).
  - apply match_testcase_spec in Hm.
    destruct Hm as (c & tl & _ & Hs & _).
    apply forallb_forall. intros x Hx. apply plain_of_space.
    exact (proj1 (forallb_forall _ _) Hs x Hx).
  - exact Hb.
Qed.

(** *** [process_file] *)

(** What [process_file] does with a file, case by case. *)
Lemma process_file_cases (f : file) :
  (process_file f = Ok (0, false, f) /\
   (readable f = false \/
    contains (lit "#if MSSQL_TESTS") (text f) = true \/
    contains (lit "#if MYSQL_TESTS") (text f) = true))
  \/
  (exists (t : list (mark * str)) (n : nat),
      originals t = split (text f) /\ wrapped t n /\
      Forall (fun l => ~ In NEWLINE l) (erase t) /\ erase t <> [] /\
      ((n = 0 /\ process_file f = Ok (0, false, f)) \/
       (0 < n /\ join (erase t) <> text f /\
        process_file f
        = if writable f then
            Ok (n, true, {| readable := readable f; writable := writable f;
                            text := join (erase t) |})
          else Ok (n, false, f)))).
Proof.
  unfold Rewriter.process_file.
  destruct (readable f) eqn:R; cbn [negb]; [|left; auto].
  destruct (contains (lit "#if MSSQL_TESTS") (text f)) eqn:C1;
    [left; auto|].
  destruct (contains (lit "#if MYSQL_TESTS") (text f)) eqn:C2;
    [left; auto|].
  cbn [orb]. right.
  destruct (process_lines_wrapped (split (text f)))
    as (t & n & Hp & Ho & Hw).
  exists t, n. rewrite Hp. cbn [bind].
  destruct (wrapped_length t n Hw) as (Hlen & _).
  assert (Hnl : Forall (fun l => ~ In NEWLINE l) (erase t)).
  { apply (wrapped_no_newline t n Hw). rewrite Ho.
    exact (proj1 (split_lines_facts (text f))). }
  assert (Hne : erase t <> []).
  { intros E. rewrite E, Ho in Hlen.
    rewrite (proj2 (split_lines_facts (text f))) in Hlen. discriminate Hlen. }
  split; [exact Ho|]. split; [exact Hw|]. split; [exact Hnl|].
  split; [exact Hne|].
  destruct n as [|n].
  - left. split; [reflexivity|].
    rewrite (wrapped_zero t 0 Hw eq_refl), Ho, join_split_id, str_eqb_refl.
    reflexivity.
  - right. split; [lia|].
    assert (Hd : join (erase t) <> text f).
    { intros E. apply (f_equal split) in E.
      rewrite (split_join_id _ Hne Hnl) in E. rewrite E, Ho in Hlen. lia. }
    split; [exact Hd|].
    destruct (str_eqb (join (erase t)) (text f)) eqn:E.
    + apply str_eqb_eq in E. contradiction.
    + reflexivity.
Qed.

Lemma process_file_outcome (f : file) :
  exists (count : nat) (modified : bool) (f' : file),
    process_file f = Ok (count, modified, f') /\
    readable f' = readable f /\ writable f' = writable f /\
    (modified = true -> 0 < count) /\
    exists (t : list (mark * str)) (n : nat),
      split (text f') = erase t /\
      originals t = split (text f) /\
      wrapped t n.
Proof.
  assert (Hsame : exists (t : list (mark * str)) (n : nat),
             split (text f) = erase t /\ originals t = split (text f) /\
             wrapped t n).
  { exists (map (pair Original) (split (text f))), 0.
    destruct (erase_all_original (split (text f))) as (He & Ho).
    rewrite He, Ho. repeat split. apply wrapped_all_original. }
  destruct (process_file_cases f)
    as [(Hp & _) | (t & n & Ho & Hw & Hnl & Hne
                    & [(_ & Hp) | (Hn & _ & Hp)])];
    rewrite Hp.
  - exists 0, false, f. repeat split; auto; discriminate.
  - exists 0, false, f. repeat split; auto; discriminate.
  - destruct (writable f) eqn:W.
    + eexists. eexists. eexists. split; [reflexivity|].
      cbn [readable writable text]. repeat split; auto.
      exists t, n. rewrite (split_join_id _ Hne Hnl). auto.
    + exists n, false, f. repeat split; auto; discriminate.
Qed.


(** The file is reported modified exactly when at least one attribute was
    wrapped and the file could be written: a run that wraps nothing writes
    nothing, and a run that wraps something always changes the text. *)
Theorem process_file_modified_iff
    (f : file) (count : nat) (modified : bool) (f' : file) :
  process_file f = Ok (count, modified, f') ->
  (modified = true <-> 0 < count /\ writable f = true).
Proof.
  destruct (process_file_cases f)
    as [(Hp & _) | (t & n & _ & _ & _ & _ & [(_ & Hp) | (Hn & _ & Hp)])];
    rewrite Hp.
  - intros H. injection H as <- <- <-.
    split; [discriminate | intros (H & _); lia].
  - intros H. injection H as <- <- <-.
    split; [discriminate | intros (H & _); lia].
  - destruct (writable f); intros H; injection H as <- <- <-.
    + split; auto.
    + split; [discriminate | intros (_ & H); discriminate H].
Qed.

(** The lines of the file after a run are the lines of the file before
    with guard lines inserted in pairs around attributes: deleting them gives
    the lines before, in order and unchanged.  When the file is reported
    modified the number of pairs is the count returned. *)
Theorem process_file_lines
    (f : file) (count : nat) (modified : bool) (f' : file) :
  process_file f = Ok (count, modified, f') ->
  exists (t : list (mark * str)) (n : nat),
    split (text f') = erase t /\
    originals t = split (text f) /\
    wrapped t n /\
    (modified = true -> n = count).
Proof.
  assert (Hsame : exists (t : list (mark * str)) (n : nat),
             split (text f) = erase t /\ originals t = split (text f) /\
             wrapped t n /\ (false = true -> n = count)).
  { exists (map (pair Original) (split (text f))), 0.
    destruct (erase_all_original (split (text f))) as (He & Ho).
    rewrite He, Ho. repeat split; [apply wrapped_all_original|discriminate]. }
  destruct (process_file_cases f)
    as [(Hp & _) | (t & n & Ho & Hw & Hnl & Hne
                    & [(_ & Hp) | (_ & _ & Hp)])];
    rewrite Hp.
  - intros H. injection H as <- <- <-. exact Hsame.
  - intros H. injection H as <- <- <-. exact Hsame.
  - destruct (writable f); intros H; injection H as <- <- <-.
    + exists t, n. cbn [text]. rewrite (split_join_id _ Hne Hnl). auto.
    + destruct Hsame as (t0 & n0 & H1 & H2 & H3 & _).
      exists t0, n0. repeat split; auto. discriminate.
Qed.



End Unicode.

Lemma process_lines_unchanged_iff_witness :
  0 = 0 <-> [Examples.unknown_attribute] = [Examples.unknown_attribute].
Proof.
  apply (process_lines_unchanged_iff Examples.ascii_only Examples.ascii_only
           [Examples.unknown_attribute] [Examples.unknown_attribute] 0).
  reflexivity.
Defined.


Lemma one_line_attribute_wrapped_alone_witness :
  Rewriter.process_step Examples.ascii_only Examples.ascii_only
    [lit "  [TestCase(DatabaseType.MySql, 1)] // a"; lit "x]"] 0 [] 0
  = Ok (0 + 1,
        [] ++ [lit "  " ++ lit "#if " ++ lit "MYSQL_TESTS";
               lit "  " ++ LBRACKET :: lit "TestCase(DatabaseType.MySql, 1)"
                       ++ RBRACKET :: lit " // a";
               lit "  " ++ lit "#endif"],
        0 + 1).
Proof.
  apply (one_line_attribute_wrapped_alone
           Examples.ascii_only Examples.ascii_only
           [lit "  [TestCase(DatabaseType.MySql, 1)] // a"; lit "x]"] 0 [] 0
           (lit "  ") (lit "MySql") (lit "MYSQL_TESTS")
           (lit "TestCase(DatabaseType.MySql, 1)") (lit " // a"));
    reflexivity.
Defined.

Lemma process_file_modified_iff_witness :
  true = true <-> 0 < 1 /\ writable Examples.mysql_file = true.
Proof.
  apply (process_file_modified_iff Examples.ascii_only Examples.ascii_only
           Examples.mysql_file 1 true Examples.mysql_file_wrapped).
  reflexivity.
Defined.

Lemma process_file_lines_witness :
  exists (t : list (mark * str)) (n : nat),
    split (text Examples.mysql_file_wrapped) = erase t /\
    originals t = split (text Examples.mysql_file) /\
    wrapped Examples.ascii_only Examples.ascii_only t n /\
    (true = true -> n = 1).
Proof.
  apply (process_file_lines Examples.ascii_only Examples.ascii_only
           Examples.mysql_file 1 true Examples.mysql_file_wrapped).
  reflexivity.
Defined.



End RewriterMore.

(** ** The driver *)

Module DriverFacts.

Import Rewriter Driver RewriterFacts TextFacts RewriterMore.

Section Unicode.

Variable uni_space : codepoint -> bool.
Variable uni_word : codepoint -> bool.

Notation process_file := (process_file uni_space uni_word).
Notation main_files := (main_files uni_space uni_word).
Notation main_dirs := (main_dirs uni_space uni_word).
Notation main := (main uni_space uni_word).
Notation guarded_version := (guarded_version uni_space uni_word).
Notation file_after := (file_after uni_space uni_word).
Notation dir_after := (dir_after uni_space uni_word).

Lemma guarded_version_refl (f : file) : guarded_version f f.
Proof.
  split; [reflexivity|]. split; [reflexivity|].
  exists (map (pair Original) (split (text f))), 0.
  destruct (erase_all_original (split (text f))) as (He & Ho).
  rewrite He, Ho. repeat split. apply wrapped_all_original.
Qed.

Lemma file_after_refl (files : list (str * file)) :
  Forall2 file_after files files.
Proof.
  induction files as [|pf files IH]; constructor; [|exact IH].
  split; [reflexivity|]. split; [reflexivity|]. apply guarded_version_refl.
Qed.

Lemma main_files_spec (files : list (str * file)) :
  forall s : summary,
    exists (files' : list (str * file)) (s' : summary),
      main_files files s = Ok (files', s') /\
      Forall2 file_after files files' /\
      grown s s'
            (length (filter (fun pf => negb (in_obj (fst pf))) files)).
Proof.
  induction files as [|[path f] files IH]; intros s.
  - exists [], s. split; [reflexivity|]. split; [constructor|].
    exists 0, 0, 0. cbn. lia.
  - cbn [Driver.main_files filter fst]. destruct (in_obj path) eqn:O.
    + destruct (IH s) as (files' & s' & Hm & Hf & Hg). rewrite Hm.
      cbn [bind negb]. exists ((path, f) :: files'), s'.
      split; [reflexivity|]. split; [|exact Hg].
      constructor; [|exact Hf].
      split; [reflexivity|]. split; [reflexivity|].
      apply guarded_version_refl.
    + destruct (process_file_outcome uni_space uni_word f)
        as (c & m & f' & Hp & Hr & Hw & Hpos & Hlines).
      rewrite Hp. cbn [bind negb length].
      match goal with
      | |- context [Driver.main_files _ _ _ ?s1] =>
          destruct (IH s1) as (files' & s' & Hm & Hf & Hg)
      end.
      rewrite Hm. cbn [bind]. exists ((path, f') :: files'), s'.
      split; [reflexivity|]. split.
      * constructor; [|exact Hf].
        split; [reflexivity|]. split; [cbn [fst]; congruence|].
        split; [exact Hr|]. split; [exact Hw|]. exact Hlines.
      * destruct Hg as (dm & dp & dc & H1 & H2 & H3 & H4 & H5 & H6).
        destruct (0 <? c) eqn:C.
        -- apply Nat.ltb_lt in C. cbn in H1, H2, H3.
           destruct m.
           ++ exists (S dm), (S dp), (c + dc). lia.
           ++ exists dm, (S dp), (c + dc). lia.
        -- exists dm, dp, dc. lia.
Qed.

Lemma candidates_cons (d : test_dir) (dirs : list test_dir) :
  candidates (d :: dirs)
  = (if dir_exists d then
       length (filter (fun pf => negb (in_obj (fst pf))) (cs_files d))
     else 0)
    + candidates dirs.
Proof. reflexivity. Qed.

Lemma main_dirs_spec (dirs : list test_dir) :
  forall s : summary,
    exists (dirs' : list test_dir) (s' : summary),
      main_dirs dirs s = Ok (dirs', s') /\
      Forall2 dir_after dirs dirs' /\
      grown s s' (candidates dirs).
Proof.
  induction dirs as [|d dirs IH]; intros s.
  - exists [], s. split; [reflexivity|]. split; [constructor|].
    exists 0, 0, 0. cbn. lia.
  - cbn [Driver.main_dirs]. rewrite candidates_cons.
    destruct (dir_exists d) eqn:E; cbn [negb].
    + destruct (main_files_spec (cs_files d) s)
        as (files' & s1 & Hm & Hf & Hg1).
      rewrite Hm. cbn [bind].
      destruct (IH s1) as (dirs' & s' & Hd & Hall & Hg2).
      rewrite Hd. cbn [bind]. eexists. eexists.
      split; [reflexivity|]. split.
      * constructor; [|exact Hall].
        split; [cbn [dir_exists]; congruence|].
        split; [congruence|]. exact Hf.
      * destruct Hg1 as (dm1 & dp1 & dc1 & A1 & A2 & A3 & A4 & A5 & A6).
        destruct Hg2 as (dm2 & dp2 & dc2 & B1 & B2 & B3 & B4 & B5 & B6).
        exists (dm1 + dm2), (dp1 + dp2), (dc1 + dc2). lia.
    + destruct (IH s) as (dirs' & s' & Hd & Hall & Hg).
      rewrite Hd. cbn [bind]. exists (d :: dirs'), s'.
      split; [reflexivity|]. split; [|exact Hg].
      constructor; [|exact Hall].
      split; [reflexivity|]. split; [reflexivity|]. apply file_after_refl.
Qed.



End Unicode.

End DriverFacts.
